(** * pydymax: the Dymaxion (Fuller) projection routines of [dymax/convert.py]

    A shallow embedding of the conversion subroutines and of the [cached]
    decorator, followed by the properties proved about them.

    Modelling conventions.
    - A Python [float] and a numpy [float64] are IEEE-754 binary64 numbers:
      Rocq's primitive [float], whose operations are specified by
      [FloatAxioms].  An [int] argument is represented by the float of the
      same value (Python compares and hashes the two alike).
    - An exception is a value: fallible code returns a [result].
    - [math.sin], [math.cos], [math.acos] and [math.atan2] call the C
      library; the four C functions are the fields of a [Libm] record that
      every definition takes as a parameter.  CPython's wrappers around them
      ([math_1], [math_2]) are modelled, so a domain error is a [ValueError].
    - [x ** 2] is the product [x * x]; [np.dot] of two 3-vectors is the sum
      of the three products taken left to right.
    - An index into a table is an integer that fits a machine word (a C
      long of 64 bits), as are the indices the code takes from [range] and
      from the tables; numpy refuses a larger one with an [OverflowError]
      before it looks at the table, and a statement about arbitrary indices
      says so.
    - [convert.py] imports the module [constants] and only reads it: its
      tables and scalars are the fields of a [Constants] record, a parameter
      too. *)

From Stdlib Require Import String.
From Stdlib Require Import ZArith List Bool Lia Floats.
Import ListNotations.

Local Open Scope float_scope.

(** A decimal literal denotes the nearest double, as it does in Python. *)
#[local] Set Warnings "-inexact-float".

(** ** Exceptions and results *)

Inductive exn : Set :=
  | ValueError
  | OverflowError
  | ZeroDivisionError
  | IndexError
  | UnboundLocalError
  | TypeError.

Inductive result (A : Type) : Type :=
  | Ok (a : A)
  | Raise (e : exn).

Arguments Ok {A} a.
Arguments Raise {A} e.

Definition bind {A B : Type} (m : result A) (k : A -> result B) : result B :=
  match m with
  | Ok a => k a
  | Raise e => Raise e
  end.

Notation "x <- m ;; k" := (bind m (fun x => k))
  (at level 61, m at next level, right associativity).
Notation "' p <- m ;; k" := (bind m (fun x => let 'p := x in k))
  (at level 61, p pattern, m at next level, right associativity).

Definition is_ok {A : Type} (m : result A) : bool :=
  match m with Ok _ => true | Raise _ => false end.

(** [for x in xs: acc = step(acc, x)], stopping at the first exception. *)
Fixpoint for_each {A S : Type} (step : S -> A -> result S) (xs : list A) (acc : S)
  : result S :=
  match xs with
  | [] => Ok acc
  | x :: rest => acc' <- step acc x ;; for_each step rest acc'
  end.

(** [range(n)] *)
Definition range (n : Z) : list Z := map Z.of_nat (seq 0 (Z.to_nat n)).

(** Indexing a Python list or a numpy array along its first axis: a negative
    index counts from the end, anything else out of range is an [IndexError]. *)
Definition np_getitem {A : Type} (l : list A) (i : Z) : result A :=
  let n := Z.of_nat (length l) in
  let j := if (i <? 0)%Z then (i + n)%Z else i in
  if ((0 <=? j) && (j <? n))%Z
  then match nth_error l (Z.to_nat j) with
       | Some a => Ok a
       | None => Raise IndexError
       end
  else Raise IndexError.

(** [l[i] = v] on a list that is long enough (same index convention). *)
Fixpoint list_set {A : Type} (l : list A) (n : nat) (v : A) : list A :=
  match l, n with
  | [], _ => []
  | _ :: t, O => v :: t
  | h :: t, S n' => h :: list_set t n' v
  end.

Definition np_setitem {A : Type} (l : list A) (i : Z) (v : A) : result (list A) :=
  let n := Z.of_nat (length l) in
  let j := if (i <? 0)%Z then (i + n)%Z else i in
  if ((0 <=? j) && (j <? n))%Z then Ok (list_set l (Z.to_nat j) v)
  else Raise IndexError.

(** ** Python's float division and the [math] module *)

(** [a / b] on floats: a zero divisor raises. *)
Definition py_div (a b : float) : result float :=
  if b =? 0 then Raise ZeroDivisionError else Ok (a / b).

(** The C library behind the [math] module. *)
Record Libm : Type := {
  c_sin : float -> float;
  c_cos : float -> float;
  c_acos : float -> float;
  c_atan2 : float -> float -> float
}.

(** CPython's [math_1] with [can_overflow = 0]: a NaN result of a non-NaN
    argument, or an infinite result of a finite argument, is a domain error. *)
Definition math_1 (func : float -> float) (x : float) : result float :=
  let r := func x in
  if is_nan r && negb (is_nan x) then Raise ValueError
  else if is_infinity r && is_finite x then Raise ValueError
  else Ok r.

(** CPython's [math_2]. *)
Definition math_2 (func : float -> float -> float) (x y : float) : result float :=
  let r := func x y in
  if is_nan r then
    if negb (is_nan x) && negb (is_nan y) then Raise ValueError else Ok r
  else if is_infinity r then
    if is_finite x && is_finite y then Raise OverflowError else Ok r
  else Ok r.

Definition math_sqrt : float -> result float := math_1 sqrt.
Definition math_sin (lm : Libm) : float -> result float := math_1 (c_sin lm).
Definition math_cos (lm : Libm) : float -> result float := math_1 (c_cos lm).
Definition math_acos (lm : Libm) : float -> result float := math_1 (c_acos lm).
Definition math_atan2 (lm : Libm) : float -> float -> result float :=
  math_2 (c_atan2 lm).

(** [math.pi] (and [np.pi]): the double nearest to pi. *)
Definition math_pi : float := 0x1.921fb54442d18p+1.

(** [math.radians(x)] is [x * (pi / 180.0)]. *)
Definition degToRad : float := math_pi / 180.
Definition math_radians (x : float) : float := x * degToRad.

(** ** Vectors *)

Definition vec3 : Set := (float * float * float)%type.

(** [XYZ[k]] for [k] in 0, 1, 2. *)
Definition component (k : Z) (v : vec3) : float :=
  let '(x, y, z) := v in
  if (k =? 0)%Z then x else if (k =? 1)%Z then y else z.

Definition vsub (a b : vec3) : vec3 :=
  let '(a0, a1, a2) := a in
  let '(b0, b1, b2) := b in
  (a0 - b0, a1 - b1, a2 - b2).

Definition vadd (a b : vec3) : vec3 :=
  let '(a0, a1, a2) := a in
  let '(b0, b1, b2) := b in
  (a0 + b0, a1 + b1, a2 + b2).

(** [v * s] with a scalar [s]. *)
Definition vscale (v : vec3) (s : float) : vec3 :=
  let '(v0, v1, v2) := v in (v0 * s, v1 * s, v2 * s).

(** [np.mean([up, down], axis=0)] *)
Definition np_mean2 (up down : vec3) : vec3 :=
  let '(u0, u1, u2) := up in
  let '(d0, d1, d2) := down in
  ((u0 + d0) / 2, (u1 + d1) / 2, (u2 + d2) / 2).

Definition np_dot (a b : vec3) : float :=
  let '(a0, a1, a2) := a in
  let '(b0, b1, b2) := b in
  a0 * b0 + a1 * b1 + a2 * b2.

Definition np_linalg_norm (v : vec3) : float := sqrt (np_dot v v).

(** [magnitude = lambda vector: np.sqrt(np.dot(vector,vector))] *)
Definition magnitude (vector : vec3) : float := sqrt (np_dot vector vector).

(** [distance = lambda vectorA, vectorB:
       np.linalg.norm(np.array(vectorA)-np.array(vectorB))] *)
Definition distance (vectorA vectorB : vec3) : float :=
  np_linalg_norm (vsub vectorA vectorB).

(** ** The geometry tables of the module [constants] *)

Record Constants : Type := {
  facecount : Z;
  vertices : list vec3;
  vert_indices : list (Z * Z * Z);
  XYZcenters : list vec3;
  dymax_translate : list (float * float * float);
  dymax_translate08_special : float * float * float;
  dymax_translate15_special : float * float * float;
  garc : float;
  gt : float;
  gdve : float;
  gel : float
}.

(** ** Conversion subroutines ([convert.py]) *)

Section Convert.

Variable lm : Libm.
Variable K : Constants.

(** [lonlat2spherical(lng, lat)] *)
Definition lonlat2spherical (lng lat : float) : float * float :=
  let h_theta := 90 - lat in
  let h_phi := if lng <? 0 then lng + 360 else lng in
  let theta := math_radians h_theta in
  let phi := math_radians h_phi in
  (theta, phi).

(** [spherical2cartesian(theta, phi)] *)
Definition spherical2cartesian (theta phi : float) : result vec3 :=
  st <- math_sin lm theta ;;
  cp <- math_cos lm phi ;;
  sp <- math_sin lm phi ;;
  ct <- math_cos lm theta ;;
  Ok (st * cp, st * sp, ct).

(** [cartesian2spherical(XYZ)]: the list [[theta, phi]] it returns is the
    pair [(theta, phi)]. *)
Definition cartesian2spherical (XYZ : vec3) : result (float * float) :=
  let '(X0, X1, X2) := XYZ in
  phi <- math_acos lm X2 ;;
  theta <- math_atan2 lm X1 X0 ;;
  Ok (theta, phi).

(** The if/elif chain at the end of [fullerTriangle]; when no branch is
    taken [h_lcd] is unbound at the [return]. *)
Definition lcd_of_distances (h_dist1 h_dist2 h_dist3 : float) : result Z :=
  if (h_dist1 <=? h_dist2) && (h_dist2 <=? h_dist3) then Ok 0%Z
  else if (h_dist1 <=? h_dist3) && (h_dist3 <=? h_dist2) then Ok 5%Z
  else if (h_dist2 <=? h_dist1) && (h_dist1 <=? h_dist3) then Ok 1%Z
  else if (h_dist2 <=? h_dist3) && (h_dist3 <=? h_dist1) then Ok 2%Z
  else if (h_dist3 <=? h_dist1) && (h_dist1 <=? h_dist2) then Ok 4%Z
  else if (h_dist3 <=? h_dist2) && (h_dist2 <=? h_dist1) then Ok 3%Z
  else Raise UnboundLocalError.

(** One turn of the loop over the face centers: the state is
    [(h_tri, h_dist1)]. *)
Definition closest_step (XYZ : vec3) (st : Z * float) (idx : Z) : result (Z * float) :=
  let '(h_tri, h_dist1) := st in
  c <- np_getitem (XYZcenters K) idx ;;
  let h := vsub c XYZ in
  let h_dist2 := magnitude h in
  if h_dist2 <? h_dist1 then Ok (idx, h_dist2) else Ok (h_tri, h_dist1).

(** The first half of [fullerTriangle]: the loop, started at [(-1, inf)]. *)
Definition closest_face (XYZ : vec3) : result Z :=
  '(h_tri, _) <- for_each (closest_step XYZ) (range (facecount K)) ((-1)%Z, infinity) ;;
  Ok h_tri.

(** [fullerTriangle(XYZ)] *)
Definition fullerTriangle (XYZ : vec3) : result (Z * Z) :=
  h_tri <- closest_face XYZ ;;
  '(v1, v2, v3) <- np_getitem (vert_indices K) h_tri ;;
  p1 <- np_getitem (vertices K) v1 ;;
  let h_dist1 := distance XYZ p1 in
  p2 <- np_getitem (vertices K) v2 ;;
  let h_dist2 := distance XYZ p2 in
  p3 <- np_getitem (vertices K) v3 ;;
  let h_dist3 := distance XYZ p3 in
  h_lcd <- lcd_of_distances h_dist1 h_dist2 h_dist3 ;;
  Ok (h_tri, h_lcd).

(** [rotate3d(axis, alpha, XYZ, reverse=True)] *)
Definition rotate3d (axis : Z) (alpha : float) (XYZ : vec3) (reverse : bool)
  : result vec3 :=
  let alpha := if reverse then - alpha else alpha in
  let '(X0, X1, X2) := XYZ in
  if (axis =? 0)%Z then
    c <- math_cos lm alpha ;;
    s <- math_sin lm alpha ;;
    Ok (X0, X1 * c - X2 * s, X1 * s + X2 * c)
  else if (axis =? 1)%Z then
    c <- math_cos lm alpha ;;
    s <- math_sin lm alpha ;;
    Ok (X0 * c + X2 * s, X1, (- X0) * s + X2 * c)
  else if (axis =? 2)%Z then
    c <- math_cos lm alpha ;;
    s <- math_sin lm alpha ;;
    Ok (X0 * c - X1 * s, X0 * s + X1 * c, X2)
  else Ok XYZ.

(** [rotate2d(angle, pointx, pointy)] *)
Definition rotate2d (angle pointx pointy : float) : result (float * float) :=
  let ha := math_radians angle in
  let hx := pointx in
  let hy := pointy in
  c <- math_cos lm ha ;;
  s <- math_sin lm ha ;;
  Ok (hx * c - hy * s, hx * s + hy * c).

(** [x / math.sqrt(3)] *)
Definition div_sqrt3 (x : float) : result float :=
  r <- math_sqrt 3 ;; py_div x r.

(** [dymax_point], up to the re-scaled [(pointx, pointy)]: everything before
    the comment [### Move and Rotate as Appropriate]. *)
Definition dymax_rescaled (tri : Z) (XYZ : vec3) : result (float * float) :=
  '(v1, _, _) <- np_getitem (vert_indices K) tri ;;
  let h0XYZ := XYZ in
  h1XYZ <- np_getitem (vertices K) v1 ;;
  center <- np_getitem (XYZcenters K) tri ;;
  '(theta, phi) <- cartesian2spherical center ;;
  h0XYZ <- rotate3d 2 theta h0XYZ true ;;
  h1XYZ <- rotate3d 2 theta h1XYZ true ;;
  h0XYZ <- rotate3d 1 phi h0XYZ true ;;
  h1XYZ <- rotate3d 1 phi h1XYZ true ;;
  '(theta, phi) <- cartesian2spherical h1XYZ ;;
  let theta := theta - math_pi / 2 in
  h0XYZ <- rotate3d 2 theta h0XYZ true ;;
  let h0 := component 0 h0XYZ in
  let h1 := component 1 h0XYZ in
  gz <- math_sqrt (1 - h0 * h0 - h1 * h1) ;;
  r5 <- math_sqrt 5 ;;
  num <- math_sqrt (5 + 2 * r5) ;;
  r15 <- math_sqrt 15 ;;
  gs <- py_div num (gz * r15) ;;
  let gxp := h0 * gs in
  let gyp := h1 * gs in
  q0 <- div_sqrt3 (2 * gyp) ;;
  e0 <- py_div (gel K) 3 ;;
  let ga0p := q0 + e0 in
  q1 <- div_sqrt3 gyp ;;
  e1 <- py_div (gel K) 3 ;;
  let ga1p := gxp - q1 + e1 in
  e2 <- py_div (gel K) 3 ;;
  q2 <- div_sqrt3 gyp ;;
  let ga2p := e2 - gxp - q2 in
  a0 <- math_atan2 lm (ga0p - 0.5 * gel K) (gdve K) ;;
  let ga0 := gt K + a0 in
  a1 <- math_atan2 lm (ga1p - 0.5 * gel K) (gdve K) ;;
  let ga1 := gt K + a1 in
  a2 <- math_atan2 lm (ga2p - 0.5 * gel K) (gdve K) ;;
  let ga2 := gt K + a2 in
  let gx := 0.5 * (ga1 - ga2) in
  r3 <- math_sqrt 3 ;;
  gy <- py_div (2 * ga0 - ga1 - ga2) (2 * r3) ;;
  pointx <- py_div gx (garc K) ;;
  pointy <- py_div gy (garc K) ;;
  Ok (pointx, pointy).

(** The placement chosen by the if/elif/else of [dymax_point]. *)
Definition dymax_placement (tri lcd : Z) : result (float * float * float) :=
  if ((tri =? 8) && (lcd <? 4))%Z then Ok (dymax_translate08_special K)
  else if ((tri =? 15) && (lcd <? 3))%Z then Ok (dymax_translate15_special K)
  else np_getitem (dymax_translate K) tri.

(** [dymax_point(tri, lcd, XYZ)] *)
Definition dymax_point (tri lcd : Z) (XYZ : vec3) : result (float * float) :=
  '(pointx, pointy) <- dymax_rescaled tri XYZ ;;
  '(xtranslate, ytranslate, rotation) <- dymax_placement tri lcd ;;
  '(pointx, pointy) <- rotate2d rotation pointx pointy ;;
  let pointx := pointx + xtranslate in
  let pointy := pointy + ytranslate in
  Ok (pointx, pointy).

(** [vert_indices[i, j]] *)
Definition np_getitem2 (tbl : list (Z * Z * Z)) (i j : Z) : result Z :=
  '(a, b, c) <- np_getitem tbl i ;;
  np_getitem [a; b; c] j.

(** The point [XYZ] that [face2dymax] projects at turn [jdx] of its loop. *)
Definition ring_XYZ (faceIdx : Z) (push : float) (atomic : bool) (jdx : Z)
  : result vec3 :=
  XYZ <- (if atomic then
            if (jdx mod 2 =? 0)%Z then
              v <- np_getitem2 (vert_indices K) faceIdx (jdx / 2)%Z ;;
              np_getitem (vertices K) v
            else
              iu <- np_getitem2 (vert_indices K) faceIdx ((jdx / 2 + 1) mod 3)%Z ;;
              up <- np_getitem (vertices K) iu ;;
              id <- np_getitem2 (vert_indices K) faceIdx ((jdx / 2 + 2) mod 3)%Z ;;
              down <- np_getitem (vertices K) id ;;
              Ok (np_mean2 up down)
          else
            v <- np_getitem2 (vert_indices K) faceIdx jdx ;;
            np_getitem (vertices K) v) ;;
  center <- np_getitem (XYZcenters K) faceIdx ;;
  Ok (vadd (vscale XYZ push) (vscale center (1 - push))).

(** The body of either loop of [face2dymax], from [XYZ] on:
    [tri, hlcd = fullerTriangle(XYZ)] and [dymax_point(tri, hlcd, XYZ)]. *)
Definition triangle_point (XYZ : vec3) : result (float * float) :=
  '(tri, hlcd) <- fullerTriangle XYZ ;;
  dymax_point tri hlcd XYZ.

Definition ring_point (faceIdx : Z) (push : float) (atomic : bool) (jdx : Z)
  : result (float * float) :=
  XYZ <- ring_XYZ faceIdx push atomic jdx ;;
  triangle_point XYZ.

(** [vert2dymax(vert, vertset)]: the weighted sum of the three vertices of
    [vertset], nearly all of the weight on [vert], then projected. *)
Definition vert2dymax (vert : Z) (vertset : Z * Z * Z) : result (float * float) :=
  let '(a, b, c) := vertset in
  XYZ <- for_each (fun XYZ i =>
                     vi <- np_getitem [a; b; c] i ;;
                     if (vi =? vert)%Z then
                       p <- np_getitem (vertices K) vert ;;
                       Ok (vadd XYZ (vscale p 0.9999))
                     else
                       p <- np_getitem (vertices K) vi ;;
                       Ok (vadd XYZ (vscale p 0.0001)))
                  (range 3) (0, 0, 0) ;;
  triangle_point XYZ.

(** [face2dymax(faceIdx, push, atomic)]: the array [points] is a list of
    rows, written row by row and closed by [points[-1] = points[0]]. *)
Definition face2dymax (faceIdx : Z) (push : float) (atomic : bool)
  : result (list (float * float)) :=
  let n := if atomic then 6%Z else 3%Z in
  let points := repeat (0, 0) (Z.to_nat (n + 1)) in
  points <- for_each (fun points jdx =>
                        p <- ring_point faceIdx push atomic jdx ;;
                        np_setitem points jdx p)
                     (range n) points ;;
  first <- np_getitem points 0 ;;
  points <- np_setitem points (-1) first ;;
  Ok points.

(** The module-level table [dymax_centers]. *)
Definition dymax_centers : result (list (float * float)) :=
  for_each (fun centers i =>
              c <- np_getitem (XYZcenters K) i ;;
              p <- triangle_point c ;;
              np_setitem centers i p)
           (range (facecount K))
           (repeat (0, 0) (Z.to_nat (facecount K))).

End Convert.

(** ** The [cached] decorator and the entry point [lonlat2dymax] *)

(** A call argument: a number or a flag. *)
Inductive pyval : Set :=
  | PyFloat (f : float)
  | PyBool (b : bool).

(** The number an argument stands for ([True] is 1, [False] is 0). *)
Definition as_float (v : pyval) : float :=
  match v with
  | PyFloat f => f
  | PyBool b => if b then 1 else 0
  end.

(** [if v:] *)
Definition truthy (v : pyval) : bool :=
  match v with
  | PyFloat f => negb (f =? 0)
  | PyBool b => b
  end.

(** [u == v], the equality a dictionary uses on keys: numeric, so that
    [0.0 == -0.0], [True == 1.0], and a NaN equals nothing. *)
Definition pyval_eqb (u v : pyval) : bool := as_float u =? as_float v.

(** Equality of two positional-argument tuples. *)
Fixpoint args_eqb (a b : list pyval) : bool :=
  match a, b with
  | [], [] => true
  | u :: a', v :: b' => pyval_eqb u v && args_eqb a' b'
  | _, _ => false
  end.

Section Cached.

Variable V : Type.

(** The decorated function, called with the positional arguments [args]
    and the keyword arguments [kwargs]. *)
Variable function : list pyval -> list (string * pyval) -> result V.

(** The dictionary [cache] of the closure: entries in insertion order, the
    newest first. *)
Definition cache_t : Type := list (list pyval * V).

(** [cache[args]], when [args in cache]. *)
Fixpoint cache_get (cache : cache_t) (args : list pyval) : option V :=
  match cache with
  | [] => None
  | (key, r) :: rest => if args_eqb key args then Some r else cache_get rest args
  end.

(** The closure [wrapper], with its [cache] passed in and handed back. *)
Definition wrapper (cache : cache_t) (args : list pyval) (kwargs : list (string * pyval))
  : result V * cache_t :=
  match cache_get cache args with
  | Some r => (Ok r, cache)
  | None =>
      match function args kwargs with
      | Ok r => (Ok r, (args, r) :: cache)
      | Raise e => (Raise e, cache)
      end
  end.

End Cached.

(** [cached(function)] is the [wrapper] closed over an empty [cache]. *)
Definition cached {V : Type} (function : list pyval -> list (string * pyval) -> result V)
  : cache_t V -> list pyval -> list (string * pyval) -> result V * cache_t V :=
  wrapper V function.

Definition empty_cache {V : Type} : cache_t V := [].

(** What [lonlat2dymax] returns: [(x, y)] or [(x, y, lcd)]. *)
Inductive dymax_xy : Set :=
  | XY (x y : float)
  | XYLcd (x y : float) (lcd : Z).

Section Entry.

Variable lm : Libm.
Variable K : Constants.

(** The body of [lonlat2dymax(lng, lat, getlcd)]. *)
Definition lonlat2dymax_body (lng lat : float) (getlcd : pyval) : result dymax_xy :=
  let '(theta, phi) := lonlat2spherical lng lat in
  XYZ <- spherical2cartesian lm theta phi ;;
  '(tri, lcd) <- fullerTriangle K XYZ ;;
  '(x, y) <- dymax_point lm K tri lcd XYZ ;;
  if truthy getlcd then Ok (XYLcd x y lcd) else Ok (XY x y).

Definition kw_lookup (name : string) (kwargs : list (string * pyval)) : option pyval :=
  option_map snd (find (fun kv => String.eqb (fst kv) name) kwargs).

(** One parameter of a call: given by position, by keyword, or defaulted;
    given twice or not at all is a [TypeError]. *)
Definition bind_parameter (pos kw dflt : option pyval) : result pyval :=
  match pos, kw with
  | Some _, Some _ => Raise TypeError
  | Some v, None => Ok v
  | None, Some v => Ok v
  | None, None => match dflt with Some d => Ok d | None => Raise TypeError end
  end.

(** The undecorated [lonlat2dymax], signature [(lng, lat, getlcd = False)],
    called with positional and keyword arguments. *)
Definition lonlat2dymax_undecorated (args : list pyval) (kwargs : list (string * pyval))
  : result dymax_xy :=
  if (3 <? length args)%nat then Raise TypeError
  else if negb (forallb (fun kv => existsb (String.eqb (fst kv))
                                     ["lng"; "lat"; "getlcd"]%string) kwargs)
  then Raise TypeError
  else
    lng <- bind_parameter (nth_error args 0) (kw_lookup "lng" kwargs) None ;;
    lat <- bind_parameter (nth_error args 1) (kw_lookup "lat" kwargs) None ;;
    getlcd <- bind_parameter (nth_error args 2) (kw_lookup "getlcd" kwargs)
                             (Some (PyBool false)) ;;
    lonlat2dymax_body (as_float lng) (as_float lat) getlcd.

(** [@cached def lonlat2dymax(lng, lat, getlcd = False)] *)
Definition lonlat2dymax
  : cache_t dymax_xy -> list pyval -> list (string * pyval)
    -> result dymax_xy * cache_t dymax_xy :=
  cached lonlat2dymax_undecorated.

End Entry.

(** ** Well-formed geometry tables *)

(** A vector of three finite numbers. *)
Definition finite3 (v : vec3) : bool :=
  let '(x, y, z) := v in is_finite x && is_finite y && is_finite z.

(** Every face has a center and a vertex triple, every vertex index names a
    row of [vertices], and all coordinates are finite. *)
Definition geometry_ok (K : Constants) : bool :=
  let nv := Z.of_nat (length (vertices K)) in
  let valid := fun v : Z => ((0 <=? v) && (v <? nv))%Z in
  (0 <? facecount K)%Z
  && (facecount K =? Z.of_nat (length (XYZcenters K)))%Z
  && (facecount K =? Z.of_nat (length (vert_indices K)))%Z
  && forallb (fun '(a, b, c) => valid a && valid b && valid c) (vert_indices K)
  && forallb finite3 (vertices K)
  && forallb finite3 (XYZcenters K).

(** Two different face centers are at a positive computed distance. *)
Definition centers_apart (K : Constants) : bool :=
  forallb (fun i =>
    forallb (fun j =>
      (i =? j)%nat
      || (0 <? magnitude (vsub (nth i (XYZcenters K) (0, 0, 0))
                               (nth j (XYZcenters K) (0, 0, 0)))))
      (seq 0 (length (XYZcenters K))))
    (seq 0 (length (XYZcenters K))).

(** ** The specification's wording of two steps, for comparison *)

(** The ranking table of the face locator, row by row:
    d1<=d2<=d3 -> 0; d1<=d3<=d2 -> 5; d2<=d1<=d3 -> 1; d2<=d3<=d1 -> 2;
    d3<=d1<=d2 -> 4; d3<=d2<=d1 -> 3. *)
Definition ranking_table (d1 d2 d3 : float) : list (bool * Z) :=
  [ ((d1 <=? d2) && (d2 <=? d3), 0%Z);
    ((d1 <=? d3) && (d3 <=? d2), 5%Z);
    ((d2 <=? d1) && (d1 <=? d3), 1%Z);
    ((d2 <=? d3) && (d3 <=? d1), 2%Z);
    ((d3 <=? d1) && (d1 <=? d2), 4%Z);
    ((d3 <=? d2) && (d2 <=? d1), 3%Z) ].

(** The index of the first row whose condition holds. *)
Definition first_match (rows : list (bool * Z)) : option Z :=
  option_map snd (find fst rows).

(** The placement of the unfolder: the special override if
    (faceIndex = 8 and lcdIndex < 4) or (faceIndex = 15 and lcdIndex < 3),
    else the table entry of the face. *)
Definition spec_placement (K : Constants) (faceIndex lcdIndex : Z)
  : result (float * float * float) :=
  if ((faceIndex =? 8) && (lcdIndex <? 4) || (faceIndex =? 15) && (lcdIndex <? 3))%Z
  then Ok (if (faceIndex =? 8)%Z then dymax_translate08_special K
           else dymax_translate15_special K)
  else np_getitem (dymax_translate K) faceIndex.

(** Rotate [(x, y)] by [rotationDegrees] with the right-hand rotation matrix,
    then translate by [(xTranslate, yTranslate)]. *)
Definition spec_rotate_translate (lm : Libm) (placement : float * float * float)
  (x y : float) : result (float * float) :=
  let '(xTranslate, yTranslate, rotationDegrees) := placement in
  let a := math_radians rotationDegrees in
  c <- math_cos lm a ;;
  s <- math_sin lm a ;;
  Ok (x * c - y * s + xTranslate, x * s + y * c + yTranslate).

(** ** A sample instance, to run the definitions on concrete inputs

    A polynomial stand-in for the C library and a regular icosahedron built
    from the golden ratio, with a made-up layout of the 20 faces.  They are
    used to evaluate the model; no theorem below depends on their values. *)

Module Sample.

Fixpoint horner (cs : list float) (x2 : float) : float :=
  match cs with
  | [] => 0
  | c :: rest => c + x2 * horner rest x2
  end.

Definition sin_coeffs : list float :=
  [1; -1/6; 1/120; -1/5040; 1/362880; -1/39916800; 1/6227020800;
   -1/1307674368000; 1/355687428096000; -1/121645100408832000].

(** Sine on [-2 pi, 2 pi], folded into [-pi/2, pi/2]. *)
Definition sin (x : float) : float :=
  let x := if math_pi <? x then x - 2 * math_pi else x in
  let x := if x <? - math_pi then x + 2 * math_pi else x in
  let x := if math_pi / 2 <? x then math_pi - x else x in
  let x := if x <? - (math_pi / 2) then - math_pi - x else x in
  x * horner sin_coeffs (x * x).

Definition cos (x : float) : float := sin (x + math_pi / 2).

Definition atan_coeffs : list float :=
  [1; -1/3; 1/5; -1/7; 1/9; -1/11; 1/13; -1/15; 1/17].

(** [tan (a / 2)] from [tan a]. *)
Definition halve_tan (t : float) : float := t / (1 + sqrt (1 + t * t)).

Definition atan (t : float) : float :=
  let t := halve_tan (halve_tan (halve_tan t)) in
  8 * (t * horner atan_coeffs (t * t)).

Definition atan2 (y x : float) : float :=
  if 0 <? x then atan (y / x)
  else if x <? 0 then
    if y <? 0 then atan (y / x) - math_pi else atan (y / x) + math_pi
  else if 0 <? y then math_pi / 2
  else if y <? 0 then - (math_pi / 2)
  else y + x.

Definition acos (z : float) : float := atan2 (sqrt (1 - z * z)) z.

Definition libm : Libm :=
  {| c_sin := sin; c_cos := cos; c_acos := acos; c_atan2 := atan2 |}.

Definition golden : float := (1 + sqrt 5) / 2.

Definition normalize (v : vec3) : vec3 :=
  let n := magnitude v in
  let '(x, y, z) := v in (x / n, y / n, z / n).

Definition ico_vertices : list vec3 :=
  map normalize
    [ (-1, golden, 0); (1, golden, 0); (-1, - golden, 0); (1, - golden, 0);
      (0, -1, golden); (0, 1, golden); (0, -1, - golden); (0, 1, - golden);
      (golden, 0, -1); (golden, 0, 1); (- golden, 0, -1); (- golden, 0, 1) ].

Definition ico_faces : list (Z * Z * Z) :=
  [ (0, 11, 5); (0, 5, 1); (0, 1, 7); (0, 7, 10); (0, 10, 11);
    (1, 5, 9); (5, 11, 4); (11, 10, 2); (10, 7, 6); (7, 1, 8);
    (3, 9, 4); (3, 4, 2); (3, 2, 6); (3, 6, 8); (3, 8, 9);
    (4, 9, 5); (2, 4, 11); (6, 2, 10); (8, 6, 7); (9, 8, 1) ]%Z.

Definition ico_vertex (i : Z) : vec3 := nth (Z.to_nat i) ico_vertices (0, 0, 0).

Definition ico_centers : list vec3 :=
  map (fun '(a, b, c) =>
         normalize (vscale (vadd (vadd (ico_vertex a) (ico_vertex b)) (ico_vertex c))
                           (1 / 3)))
      ico_faces.

Definition layout : list (float * float * float) :=
  [ (0, 0, 0); (1, 0, 60); (2, 0, 120); (3, 0, 180); (4, 0, 240);
    (0.5, 0.875, 300); (1.5, 0.875, 0); (2.5, 0.875, 60); (3.5, 0.875, 120);
    (4.5, 0.875, 180);
    (1, 1.75, 240); (2, 1.75, 300); (3, 1.75, 0); (4, 1.75, 60); (5, 1.75, 120);
    (1.5, 2.625, 180); (2.5, 2.625, 240); (3.5, 2.625, 300); (4.5, 2.625, 0);
    (5.5, 2.625, 60) ].

(** The angle two adjacent vertices span at the center of the sphere. *)
Definition edge_arc : float := atan 2.

Definition constants : Constants :=
  {| facecount := 20;
     vertices := ico_vertices;
     vert_indices := ico_faces;
     XYZcenters := ico_centers;
     dymax_translate := layout;
     dymax_translate08_special := (1.5, 0.5, 300);
     dymax_translate15_special := (5, 1.5, 120);
     garc := edge_arc;
     gt := edge_arc / 2;
     gdve := sqrt (3 + sqrt 5) / sqrt (5 + sqrt 5);
     gel := sqrt 8 / sqrt (5 + sqrt 5) |}.

(** Agreement of two floats up to the accuracy of the polynomials. *)
Definition close (a b : float) : bool := abs (a - b) <? 1e-12.

End Sample.

(** ** Notions used in the statements and proofs *)

(** Classes of specification floats: not a NaN; zero or finite; of positive
    sign and not a NaN. *)
Definition sf_number (x : spec_float) : Prop :=
  match x with S754_nan => False | _ => True end.

Definition sf_finite (x : spec_float) : Prop :=
  match x with S754_zero _ | S754_finite _ _ _ => True | _ => False end.

Definition sf_inf (x : spec_float) : Prop :=
  match x with S754_infinity _ => True | _ => False end.

Definition sf_nonneg (x : spec_float) : Prop :=
  match x with
  | S754_zero false | S754_infinity false | S754_finite false _ _ => True
  | _ => False
  end.

(** The order of specification floats, read off three integer keys: the
    class (infinities outside, zero in the middle), then the signed
    exponent, then the signed mantissa. *)
Definition sf_class (x : spec_float) : Z :=
  match x with
  | S754_infinity true => -2
  | S754_finite true _ _ => -1
  | S754_zero _ | S754_nan => 0
  | S754_finite false _ _ => 1
  | S754_infinity false => 2
  end.

Definition sf_exp (x : spec_float) : Z :=
  match x with
  | S754_finite false _ e => e
  | S754_finite true _ e => - e
  | _ => 0
  end.

Definition sf_man (x : spec_float) : Z :=
  match x with
  | S754_finite false m _ => Zpos m
  | S754_finite true m _ => Zneg m
  | _ => 0
  end.

Definition sf_lt (x y : spec_float) : Prop :=
  (sf_class x < sf_class y
   \/ sf_class x = sf_class y
      /\ (sf_exp x < sf_exp y \/ sf_exp x = sf_exp y /\ sf_man x < sf_man y))%Z.

Definition sf_eq (x y : spec_float) : Prop :=
  sf_class x = sf_class y /\ sf_exp x = sf_exp y /\ sf_man x = sf_man y.


(** A vector without NaN coordinate; a vector with an infinite one. *)
Definition number3 (v : vec3) : bool :=
  let '(x, y, z) := v in negb (is_nan x) && negb (is_nan y) && negb (is_nan z).

Definition has_inf (v : vec3) : bool :=
  let '(x, y, z) := v in is_infinity x || is_infinity y || is_infinity z.

(** A vector with a NaN coordinate. *)
Definition nan_in (v : vec3) : Prop :=
  let '(x, y, z) := v in x = nan \/ y = nan \/ z = nan.

(** [tri] is the first index of a smallest computed distance from [XYZ] to
    a face center: no center is strictly closer, every earlier one is
    strictly farther; or [tri] is -1 and no distance is below infinity. *)
Definition first_minimum (K : Constants) (XYZ : vec3) (tri : Z) : Prop :=
  let n := length (XYZcenters K) in
  let D := fun j => magnitude (vsub (nth j (XYZcenters K) (0, 0, 0)) XYZ) in
  (tri = (-1)%Z /\ forall j, (j < n)%nat -> (D j <? infinity) = false)
  \/ exists k, tri = Z.of_nat k /\ (k < n)%nat
               /\ (forall j, (j < n)%nat -> (D j <? D k) = false)
               /\ (forall j, (j < k)%nat -> (D k <? D j) = true).

(** One turn of a loop that computes a point and stores it in row [jdx]:
    the body of both loops of [face2dymax]. *)
Definition fill_step {P : Type} (pt : Z -> result P) (points : list P) (jdx : Z)
  : result (list P) :=
  p <- pt jdx ;; np_setitem points jdx p.

(** Number of points of the ring before the closing one. *)
Definition ring_turns (atomic : bool) : nat := if atomic then 6%nat else 3%nat.

(** A call returned an array of [n] rows whose last row equals the first. *)
Definition closed_ring (n : nat) (r : result (list (float * float))) : bool :=
  match r with
  | Ok points =>
      (length points =? n)%nat
      && (let '(x, y) := hd (0, 0) points in
          let '(x', y') := last points (0, 0) in
          (x =? x') && (y =? y'))
  | Raise _ => false
  end.

(** Push fractions from the center (0) to the vertex (1), the default .9999
    of [face2dymax] and the .75 of its docstring among them. *)
Definition sample_pushes : list float := [0; 0.0001; 0.25; 0.5; 0.75; 0.9999; 1].

(** * Properties *)

(** ** Facts about binary64 arithmetic *)

Lemma sf_nonneg_number x : sf_nonneg x -> sf_number x.
Proof. destruct x as [[|]|[|]| |[|] m e]; simpl; tauto. Qed.

Lemma Prim2SF_nan : Prim2SF nan = S754_nan.
Proof. reflexivity. Qed.

Lemma Prim2SF_nan_inv x : Prim2SF x = S754_nan -> x = nan.
Proof. intros H. apply Prim2SF_inj. rewrite H. reflexivity. Qed.

(** NaN is absorbing for the arithmetic and false in every comparison. *)
Lemma sub_nan_l x : nan - x = nan.
Proof. apply Prim2SF_nan_inv. rewrite sub_spec, Prim2SF_nan. reflexivity. Qed.

Lemma sub_nan_r x : x - nan = nan.
Proof.
  apply Prim2SF_nan_inv. rewrite sub_spec, Prim2SF_nan.
  destruct (Prim2SF x); reflexivity.
Qed.

Lemma mul_nan_l x : nan * x = nan.
Proof. apply Prim2SF_nan_inv. rewrite mul_spec, Prim2SF_nan. reflexivity. Qed.

Lemma mul_nan_r x : x * nan = nan.
Proof.
  apply Prim2SF_nan_inv. rewrite mul_spec, Prim2SF_nan.
  destruct (Prim2SF x); reflexivity.
Qed.

Lemma add_nan_l x : nan + x = nan.
Proof. apply Prim2SF_nan_inv. rewrite add_spec, Prim2SF_nan. reflexivity. Qed.

Lemma add_nan_r x : x + nan = nan.
Proof.
  apply Prim2SF_nan_inv. rewrite add_spec, Prim2SF_nan.
  destruct (Prim2SF x); reflexivity.
Qed.

Lemma ltb_nan_l x : (nan <? x) = false.
Proof. rewrite ltb_spec, Prim2SF_nan. reflexivity. Qed.

Lemma leb_nan_l x : (nan <=? x) = false.
Proof. rewrite leb_spec, Prim2SF_nan. reflexivity. Qed.

Lemma leb_nan_r x : (x <=? nan) = false.
Proof.
  rewrite leb_spec, Prim2SF_nan. unfold SFleb, SFcompare.
  destruct (Prim2SF x); reflexivity.
Qed.

(** Rounding keeps the sign and never invents a NaN. *)
Lemma shr_1_nonneg mrs : (0 <= shr_m mrs)%Z -> (0 <= shr_m (shr_1 mrs))%Z.
Proof.
  destruct mrs as [m r s]. simpl.
  destruct m as [ | [p|p| ] | [p|p| ] ]; simpl; intros; lia.
Qed.

Lemma iter_pos_shr_1_nonneg p :
  forall mrs, (0 <= shr_m mrs)%Z -> (0 <= shr_m (iter_pos shr_1 p mrs))%Z.
Proof.
  induction p as [p IH | p IH | ]; intros mrs H; simpl.
  - apply IH, IH, shr_1_nonneg, H.
  - apply IH, IH, H.
  - apply shr_1_nonneg, H.
Qed.

Lemma shr_fexp_nonneg prec emax m e l :
  (0 <= m)%Z -> (0 <= shr_m (fst (shr_fexp prec emax m e l)))%Z.
Proof.
  intros H. unfold shr_fexp, shr.
  assert (H0 : (0 <= shr_m (shr_record_of_loc m l))%Z).
  { destruct l as [ | [ | | ] ]; simpl; exact H. }
  destruct (_ - e)%Z; simpl; auto.
  apply iter_pos_shr_1_nonneg, H0.
Qed.

Lemma round_nearest_even_nonneg m l :
  (0 <= m)%Z -> (0 <= round_nearest_even m l)%Z.
Proof.
  intros H. destruct l as [ | [ | | ] ]; simpl; try lia.
  destruct (Z.even m); lia.
Qed.

Lemma binary_round_aux_sign prec emax sx mx ex lx :
  (0 <= mx)%Z ->
  match binary_round_aux prec emax sx mx ex lx with
  | S754_zero s | S754_infinity s | S754_finite s _ _ => s = sx
  | S754_nan => False
  end.
Proof.
  intros H. unfold binary_round_aux.
  pose proof (shr_fexp_nonneg prec emax mx ex lx H) as H1.
  destruct (shr_fexp prec emax mx ex lx) as [mrs' e']. simpl in H1.
  pose proof (shr_fexp_nonneg prec emax _ e' loc_Exact
                (round_nearest_even_nonneg _ (loc_of_shr_record mrs') H1)) as H2.
  destruct (shr_fexp prec emax (round_nearest_even _ _) e' loc_Exact) as [mrs'' e''].
  simpl in H2.
  destruct (shr_m mrs'') as [ | m | m ].
  - reflexivity.
  - destruct (e'' <=? emax - prec)%Z; reflexivity.
  - lia.
Qed.

Lemma binary_round_sign prec emax sx mx ex :
  match binary_round prec emax sx mx ex with
  | S754_zero s | S754_infinity s | S754_finite s _ _ => s = sx
  | S754_nan => False
  end.
Proof.
  unfold binary_round.
  destruct (shl_align mx ex _) as [mz ez].
  apply binary_round_aux_sign. lia.
Qed.

Lemma binary_normalize_number prec emax m e s :
  sf_number (binary_normalize prec emax m e s).
Proof.
  unfold binary_normalize. destruct m as [ | p | p ]; [exact I | | ].
  - pose proof (binary_round_sign prec emax false p e) as H.
    destruct (binary_round prec emax false p e); simpl; tauto.
  - pose proof (binary_round_sign prec emax true p e) as H.
    destruct (binary_round prec emax true p e); simpl; tauto.
Qed.

Lemma SFsub_number prec emax x y :
  sf_finite x -> sf_finite y -> sf_number (SFsub prec emax x y).
Proof.
  destruct x as [sx|sx| |sx mx ex], y as [sy|sy| |sy my ey];
    simpl; try tauto; intros _ _.
  - destruct sx, sy; exact I.
  - apply binary_normalize_number.
Qed.

Lemma SFsub_diag prec emax x :
  sf_finite x -> SFsub prec emax x x = S754_zero false.
Proof.
  destruct x as [sx|sx| |sx mx ex]; simpl; try tauto; intros _.
  - destruct sx; reflexivity.
  - rewrite Z.sub_diag. reflexivity.
Qed.

Lemma SFmul_square_nonneg prec emax x :
  sf_number x -> sf_nonneg (SFmul prec emax x x).
Proof.
  destruct x as [sx|sx| |sx mx ex]; simpl; try tauto; intros _.
  - destruct sx; exact I.
  - destruct sx; exact I.
  - pose proof (binary_round_aux_sign prec emax (xorb sx sx)
                  (Zpos (mx * mx)) (ex + ex) loc_Exact) as H.
    rewrite xorb_nilpotent in *.
    destruct (binary_round_aux _ _ _ _ _ _); simpl;
      try (rewrite H by lia; exact I).
    apply H. lia.
Qed.

Lemma SFadd_nonneg prec emax x y :
  sf_nonneg x -> sf_nonneg y -> sf_nonneg (SFadd prec emax x y).
Proof.
  destruct x as [[|]|[|]| |[|] mx ex], y as [[|]|[|]| |[|] my ey];
    simpl; try tauto; intros _ _.
  pose proof (binary_round_sign prec emax false
     (fst (shl_align mx ex (Z.min ex ey)) + fst (shl_align my ey (Z.min ex ey)))
     (Z.min ex ey)) as H.
  destruct (binary_round _ _ _ _ _); simpl; try (rewrite H; exact I). exact H.
Qed.

Lemma SFsqrt_nonneg prec emax x :
  sf_nonneg x -> sf_nonneg (SFsqrt prec emax x).
Proof.
  destruct x as [[|]|[|]| |[|] mx ex]; simpl; try tauto; intros _.
  destruct (SFsqrt_core_binary prec emax (Z.pos mx) ex) as [[mz ez] lz] eqn:E.
  assert (Hmz : (0 <= mz)%Z).
  { unfold SFsqrt_core_binary in E.
    destruct (Z.sqrtrem _) as [q r] eqn:Eq in E.
    injection E as <- _ _.
    pose proof (Z.sqrtrem_sqrt) as Hs.
    match type of Eq with Z.sqrtrem ?a = _ => specialize (Hs a); rewrite Eq in Hs end.
    simpl in Hs. subst q. apply Z.sqrt_nonneg. }
  pose proof (binary_round_aux_sign prec emax false mz ez lz Hmz) as H.
  destruct (binary_round_aux _ _ _ _ _ _); simpl; try (rewrite H; exact I).
  exact H.
Qed.

(** The order on numbers. *)
Lemma SFcompare_refl x : sf_number x -> SFcompare x x = Some Eq.
Proof.
  destruct x as [s|s| |s m e]; simpl; try tauto; intros _.
  - destruct s; reflexivity.
  - rewrite Z.compare_refl, Pos.compare_cont_refl. destruct s; reflexivity.
Qed.

Lemma SFcompare_antisym x y :
  sf_number x -> sf_number y ->
  SFcompare y x = option_map CompOpp (SFcompare x y).
Proof.
  destruct x as [sx|sx| |sx mx ex], y as [sy|sy| |sy my ey];
    simpl; try tauto; intros _ _;
    try (destruct sx; reflexivity); try (destruct sy; reflexivity);
    try (destruct sx, sy; reflexivity).
  rewrite (Z.compare_antisym ex ey).
  destruct sx, sy; try reflexivity;
    destruct (ex ?= ey)%Z; simpl; try reflexivity;
    repeat f_equal; symmetry; exact (Pos.compare_cont_antisym mx my Eq).
Qed.

Lemma is_nan_false_number x : is_nan x = false -> sf_number (Prim2SF x).
Proof.
  unfold is_nan. rewrite eqb_spec. intros H.
  destruct (Prim2SF x); simpl; try exact I. discriminate H.
Qed.

Lemma number_is_nan_false x : sf_number (Prim2SF x) -> is_nan x = false.
Proof.
  intros H. unfold is_nan. rewrite eqb_spec. unfold SFeqb.
  rewrite (SFcompare_refl _ H). reflexivity.
Qed.

Lemma is_finite_sf_finite x : is_finite x = true -> sf_finite (Prim2SF x).
Proof.
  unfold is_finite, is_nan, is_infinity.
  rewrite !eqb_spec, abs_spec. intros H.
  destruct (Prim2SF x) as [s|[|]| |s m e]; simpl; try exact I;
    vm_compute in H; discriminate H.
Qed.

Lemma leb_total a b :
  is_nan a = false -> is_nan b = false -> (a <=? b) = true \/ (b <=? a) = true.
Proof.
  intros Ha Hb. apply is_nan_false_number in Ha, Hb.
  rewrite !leb_spec. unfold SFleb.
  rewrite (SFcompare_antisym _ _ Ha Hb).
  assert (Hc : SFcompare (Prim2SF a) (Prim2SF b) <> None).
  { destruct (Prim2SF a) as [ | | | [|] ? ?], (Prim2SF b) as [ | | | [|] ? ?];
      simpl in *; try tauto; discriminate. }
  destruct (SFcompare (Prim2SF a) (Prim2SF b)) as [[ | | ]|]; simpl; tauto.
Qed.

Lemma eqb_leb a b : (a =? b) = true -> (a <=? b) = true.
Proof.
  rewrite eqb_spec, leb_spec. unfold SFeqb, SFleb.
  destruct (SFcompare _ _) as [[ | | ]|]; auto.
Qed.

Lemma is_nan_true x : is_nan x = true -> x = nan.
Proof.
  intros H. apply Prim2SF_nan_inv.
  destruct (Prim2SF x) as [s|s| |s m e] eqn:E; try reflexivity;
    rewrite number_is_nan_false in H by (rewrite E; exact I); discriminate H.
Qed.

Lemma zero_leb_not_ltb x : (0 <=? x) = true -> (x <? 0) = false.
Proof.
  rewrite leb_spec, ltb_spec. change (Prim2SF 0) with (S754_zero false).
  destruct (Prim2SF x) as [s|[|]| |[|] m e]; simpl; auto; discriminate.
Qed.

Lemma zero_ltb_not_ltb x : (0 <? x) = true -> (x <? 0) = false.
Proof.
  rewrite !ltb_spec. change (Prim2SF 0) with (S754_zero false).
  destruct (Prim2SF x) as [s|[|]| |[|] m e]; simpl; auto; discriminate.
Qed.

Lemma sub_diag_finite x : is_finite x = true -> x - x = 0.
Proof.
  intros H. apply Prim2SF_inj. rewrite sub_spec.
  unfold SF64sub. rewrite SFsub_diag by (apply is_finite_sf_finite, H).
  reflexivity.
Qed.

(** The comparison of two numbers agrees with the order of their keys. *)
Lemma SFcompare_key x y :
  sf_number x -> sf_number y ->
  match SFcompare x y with
  | Some Lt => sf_lt x y
  | Some Eq => sf_eq x y
  | Some Gt => sf_lt y x
  | None => False
  end.
Proof.
  destruct x as [sx|sx| |sx mx ex], y as [sy|sy| |sy my ey];
    simpl; try tauto; intros _ _;
    try (destruct sx; unfold sf_lt, sf_eq; simpl; lia);
    try (destruct sy; unfold sf_lt, sf_eq; simpl; lia);
    try (destruct sx, sy; unfold sf_lt, sf_eq; simpl; lia).
  change (Pos.compare_cont Eq mx my) with (Pos.compare mx my).
  destruct sx, sy; unfold sf_lt, sf_eq; simpl; try lia;
    destruct (Z.compare_spec ex ey); try lia;
    destruct (Pos.compare_spec mx my); simpl; lia.
Qed.

Lemma ltb_true_numbers a b :
  (a <? b) = true -> sf_number (Prim2SF a) /\ sf_number (Prim2SF b).
Proof.
  rewrite ltb_spec. unfold SFltb.
  destruct (Prim2SF a), (Prim2SF b); simpl; auto; discriminate.
Qed.

Lemma leb_true_numbers a b :
  (a <=? b) = true -> sf_number (Prim2SF a) /\ sf_number (Prim2SF b).
Proof.
  rewrite leb_spec. unfold SFleb.
  destruct (Prim2SF a), (Prim2SF b); simpl; auto; discriminate.
Qed.

Lemma ltb_true_key a b : (a <? b) = true -> sf_lt (Prim2SF a) (Prim2SF b).
Proof.
  intros H. destruct (ltb_true_numbers a b H) as [Ha Hb].
  pose proof (SFcompare_key _ _ Ha Hb) as Hk.
  rewrite ltb_spec in H. unfold SFltb in H.
  destruct (SFcompare _ _) as [[ | | ]|]; try discriminate H. exact Hk.
Qed.

Lemma key_ltb_true a b :
  sf_number (Prim2SF a) -> sf_number (Prim2SF b) ->
  sf_lt (Prim2SF a) (Prim2SF b) -> (a <? b) = true.
Proof.
  intros Ha Hb H. pose proof (SFcompare_key _ _ Ha Hb) as Hk.
  rewrite ltb_spec. unfold SFltb.
  destruct (SFcompare _ _) as [[ | | ]|]; try reflexivity; try contradiction;
    unfold sf_lt, sf_eq in *; lia.
Qed.

Lemma leb_true_key a b :
  (a <=? b) = true ->
  sf_lt (Prim2SF a) (Prim2SF b) \/ sf_eq (Prim2SF a) (Prim2SF b).
Proof.
  intros H. destruct (leb_true_numbers a b H) as [Ha Hb].
  pose proof (SFcompare_key _ _ Ha Hb) as Hk.
  rewrite leb_spec in H. unfold SFleb in H.
  destruct (SFcompare _ _) as [[ | | ]|]; try discriminate H; auto.
Qed.

(** The strict order of floats is irreflexive, asymmetric and transitive,
    also across [<=]; on numbers, not [<] is [>=]. *)
Lemma ltb_irrefl a : (a <? a) = false.
Proof.
  destruct (a <? a) eqn:H; [ | reflexivity].
  apply ltb_true_key in H. unfold sf_lt in H. lia.
Qed.

Lemma ltb_asym a b : (a <? b) = true -> (b <? a) = false.
Proof.
  intros H. destruct (b <? a) eqn:H'; [ | reflexivity].
  apply ltb_true_key in H, H'. unfold sf_lt in *. lia.
Qed.

Lemma ltb_leb_trans a b c :
  (a <? b) = true -> (b <=? c) = true -> (a <? c) = true.
Proof.
  intros H1 H2.
  destruct (ltb_true_numbers a b H1) as [Ha _].
  destruct (leb_true_numbers b c H2) as [_ Hc].
  apply ltb_true_key in H1. apply leb_true_key in H2.
  apply key_ltb_true; auto. unfold sf_lt, sf_eq in *. lia.
Qed.

Lemma not_ltb_leb a b :
  is_nan a = false -> is_nan b = false -> (a <? b) = false -> (b <=? a) = true.
Proof.
  intros Ha Hb H. apply is_nan_false_number in Ha, Hb.
  pose proof (SFcompare_antisym _ _ Ha Hb) as Hanti.
  rewrite ltb_spec in H. rewrite leb_spec. unfold SFltb, SFleb in *.
  rewrite Hanti.
  pose proof (SFcompare_key _ _ Ha Hb) as Hk.
  destruct (SFcompare (Prim2SF a) (Prim2SF b)) as [[ | | ]|];
    simpl; try reflexivity; try discriminate H; contradiction.
Qed.

(** ** Norms and distances *)

Lemma sub_finite_number a b :
  is_finite a = true -> is_finite b = true -> sf_number (Prim2SF (a - b)).
Proof.
  intros Ha Hb. rewrite sub_spec.
  apply SFsub_number; apply is_finite_sf_finite; assumption.
Qed.

Lemma norm_of_numbers x y z :
  sf_number (Prim2SF x) -> sf_number (Prim2SF y) -> sf_number (Prim2SF z) ->
  is_nan (sqrt (np_dot (x, y, z) (x, y, z))) = false.
Proof.
  intros Hx Hy Hz. apply number_is_nan_false, sf_nonneg_number.
  unfold np_dot. rewrite sqrt_spec, !add_spec, !mul_spec.
  apply SFsqrt_nonneg.
  repeat apply SFadd_nonneg; apply SFmul_square_nonneg; assumption.
Qed.

Lemma finite3_components x y z :
  finite3 (x, y, z) = true ->
  is_finite x = true /\ is_finite y = true /\ is_finite z = true.
Proof.
  unfold finite3. rewrite !andb_true_iff. tauto.
Qed.

(** The distance of two finite points is a number: zero, positive or
    infinite, never NaN. *)
Lemma distance_number a b :
  finite3 a = true -> finite3 b = true -> is_nan (distance a b) = false.
Proof.
  destruct a as [[a0 a1] a2], b as [[b0 b1] b2]. intros Ha Hb.
  apply finite3_components in Ha, Hb.
  unfold distance, np_linalg_norm, vsub.
  apply norm_of_numbers; apply sub_finite_number; tauto.
Qed.

Lemma magnitude_vsub_number a b :
  finite3 a = true -> finite3 b = true -> is_nan (magnitude (vsub a b)) = false.
Proof. exact (distance_number a b). Qed.

(** A finite point is at distance exactly zero from itself. *)
Lemma magnitude_vsub_diag c : finite3 c = true -> magnitude (vsub c c) = 0.
Proof.
  destruct c as [[x y] z]. intros H. apply finite3_components in H.
  unfold magnitude, vsub.
  rewrite !sub_diag_finite by tauto. reflexivity.
Qed.

Lemma nan_in_vsub_l a b : nan_in a -> nan_in (vsub a b).
Proof.
  destruct a as [[a0 a1] a2], b as [[b0 b1] b2]. simpl.
  intros [-> | [-> | ->]]; rewrite sub_nan_l; auto.
Qed.

Lemma nan_in_vsub_r a b : nan_in b -> nan_in (vsub a b).
Proof.
  destruct a as [[a0 a1] a2], b as [[b0 b1] b2]. simpl.
  intros [-> | [-> | ->]]; rewrite sub_nan_r; auto.
Qed.

Lemma nan_in_vadd_l a b : nan_in a -> nan_in (vadd a b).
Proof.
  destruct a as [[a0 a1] a2], b as [[b0 b1] b2]. simpl.
  intros [-> | [-> | ->]]; rewrite add_nan_l; auto.
Qed.

Lemma vscale_nan v : nan_in (vscale v nan).
Proof. destruct v as [[x y] z]. simpl. rewrite mul_nan_r. auto. Qed.

Lemma magnitude_nan v : nan_in v -> magnitude v = nan.
Proof.
  destruct v as [[x y] z]. unfold magnitude, np_dot. simpl.
  intros [-> | [-> | ->]];
    rewrite ?mul_nan_l, ?add_nan_l, ?add_nan_r, ?add_nan_l; reflexivity.
Qed.

Lemma distance_nan a b : nan_in a -> distance a b = nan.
Proof. intros H. apply (magnitude_nan (vsub a b)), nan_in_vsub_l, H. Qed.

(** ** Indexing and loops *)

Lemma np_getitem_nat {A : Type} (l : list A) (i : nat) (d : A) :
  (i < length l)%nat -> np_getitem l (Z.of_nat i) = Ok (nth i l d).
Proof.
  intros H. unfold np_getitem.
  destruct (Z.ltb_spec (Z.of_nat i) 0) as [Hn | _]; [lia | ].
  destruct (Z.leb_spec 0 (Z.of_nat i)) as [_ | Hn]; [ | lia].
  destruct (Z.ltb_spec (Z.of_nat i) (Z.of_nat (length l))) as [_ | Hn]; [ | lia].
  simpl. rewrite Nat2Z.id.
  rewrite (nth_error_nth' l d H). reflexivity.
Qed.

Lemma np_getitem_in_range {A : Type} (l : list A) (i : Z) :
  (0 <= i < Z.of_nat (length l))%Z ->
  exists a, np_getitem l i = Ok a /\ In a l.
Proof.
  intros H. destruct l as [ | d l']; [simpl in H; lia | ].
  exists (nth (Z.to_nat i) (d :: l') d). split.
  - rewrite <- (np_getitem_nat (d :: l') (Z.to_nat i) d) by lia.
    rewrite Z2Nat.id by lia. reflexivity.
  - apply nth_In. lia.
Qed.

Lemma np_getitem_last {A : Type} (l : list A) :
  l <> [] -> exists a, np_getitem l (-1) = Ok a /\ In a l.
Proof.
  intros H. destruct l as [ | d l']; [congruence | ].
  unfold np_getitem.
  change ((-1 <? 0)%Z) with true. cbv iota.
  set (n := Z.of_nat (length (d :: l'))).
  assert (Hn : (0 < n)%Z) by (subst n; simpl; lia).
  destruct (Z.leb_spec 0 (-1 + n)) as [_ | ?]; [ | lia].
  destruct (Z.ltb_spec (-1 + n) n) as [_ | ?]; [ | lia]. simpl andb. cbv iota.
  assert (Hlt : (Z.to_nat (-1 + n) < length (d :: l'))%nat) by (subst n; lia).
  rewrite (nth_error_nth' _ d Hlt).
  eexists. split; [reflexivity | apply nth_In, Hlt].
Qed.

(** [np_getitem] returns an element of the list or raises [IndexError]. *)
Lemma np_getitem_cases {A : Type} (l : list A) (i : Z) :
  (exists a, np_getitem l i = Ok a /\ In a l) \/ np_getitem l i = Raise IndexError.
Proof.
  unfold np_getitem.
  destruct (_ && _)%bool; [ | now right].
  destruct (nth_error l _) as [a | ] eqn:E; [left | now right].
  exists a. split; [reflexivity | eapply nth_error_In, E].
Qed.

Lemma in_range i n : In i (range n) <-> (0 <= i < n)%Z.
Proof.
  unfold range. rewrite in_map_iff. split.
  - intros (k & <- & Hk). apply in_seq in Hk. lia.
  - intros H. exists (Z.to_nat i). split; [lia | apply in_seq; lia].
Qed.

Lemma range_split (n f : Z) :
  (0 <= f < n)%Z ->
  range n = range f ++ f :: map Z.of_nat (seq (S (Z.to_nat f)) (Z.to_nat n - S (Z.to_nat f))).
Proof.
  intros H. unfold range.
  replace (Z.to_nat n) with (Z.to_nat f + S (Z.to_nat n - S (Z.to_nat f)))%nat at 1 by lia.
  rewrite seq_app, map_app. simpl. rewrite Z2Nat.id by lia. reflexivity.
Qed.

Lemma for_each_app {A S : Type} (step : S -> A -> result S) xs ys acc :
  for_each step (xs ++ ys) acc = (acc' <- for_each step xs acc ;; for_each step ys acc').
Proof.
  revert acc. induction xs as [ | x xs IH]; intros acc; simpl; [reflexivity | ].
  destruct (step acc x); simpl; [apply IH | reflexivity].
Qed.

(** The loop of [fullerTriangle] visits valid indices without raising, and
    ends on the start value or on an index it visited. *)
Lemma closest_loop_total K XYZ idxs :
  (forall i, In i idxs -> (0 <= i < Z.of_nat (length (XYZcenters K)))%Z) ->
  forall st, exists t d,
    for_each (closest_step K XYZ) idxs st = Ok (t, d) /\ (t = fst st \/ In t idxs).
Proof.
  induction idxs as [ | i idxs IH]; intros Hin [t0 d0].
  - exists t0, d0. simpl. auto.
  - simpl.
    destruct (np_getitem_in_range (XYZcenters K) i) as (c & Hc & _).
    { apply Hin. now left. }
    unfold closest_step at 1. rewrite Hc. simpl.
    destruct (magnitude (vsub c XYZ) <? d0); simpl;
      (edestruct IH as (t & d & -> & Ht); [intros j Hj; apply Hin; now right | ]);
      exists t, d; simpl in *; intuition.
Qed.

(** Turns that find nothing closer leave the state alone. *)
Lemma closest_loop_keep K XYZ idxs st :
  (forall i, In i idxs ->
     exists c, np_getitem (XYZcenters K) i = Ok c
               /\ (magnitude (vsub c XYZ) <? snd st) = false) ->
  for_each (closest_step K XYZ) idxs st = Ok st.
Proof.
  destruct st as [t0 d0]. simpl.
  induction idxs as [ | i idxs IH]; intros H; simpl; [reflexivity | ].
  destruct (H i) as (c & Hc & Hlt); [now left | ].
  rewrite Hc. simpl. rewrite Hlt. simpl.
  apply IH. intros j Hj. apply H. now right.
Qed.

(** Turns over centers at a positive distance keep the running minimum
    positive. *)
Lemma closest_loop_positive K XYZ idxs :
  (forall i, In i idxs ->
     exists c, np_getitem (XYZcenters K) i = Ok c
               /\ (0 <? magnitude (vsub c XYZ)) = true) ->
  forall st, (0 <? snd st) = true ->
  exists st', for_each (closest_step K XYZ) idxs st = Ok st' /\ (0 <? snd st') = true.
Proof.
  induction idxs as [ | i idxs IH]; intros H [t0 d0] Hst; simpl in *.
  - eauto.
  - destruct (H i) as (c & Hc & Hpos); [now left | ].
    rewrite Hc. simpl.
    destruct (magnitude (vsub c XYZ) <? d0); simpl;
      apply IH; auto.
Qed.

(** With a NaN coordinate in [XYZ] no turn updates the state. *)
Lemma closest_loop_nan K XYZ idxs st :
  nan_in XYZ ->
  for_each (closest_step K XYZ) idxs st = Ok st
  \/ for_each (closest_step K XYZ) idxs st = Raise IndexError.
Proof.
  intros Hnan. destruct st as [t0 d0].
  induction idxs as [ | i idxs IH]; simpl; [now left | ].
  destruct (np_getitem_cases (XYZcenters K) i) as [(c & -> & _) | ->];
    simpl; [ | now right].
  rewrite (magnitude_nan (vsub c XYZ)) by (apply nan_in_vsub_r, Hnan).
  rewrite ltb_nan_l. simpl. exact IH.
Qed.

(** On distances that are numbers the loop ends on the first index of the
    smallest distance: nothing is strictly closer than the face it settles
    on, and every earlier face is strictly farther. *)
Lemma closest_loop_first_minimum K XYZ n :
  (n <= length (XYZcenters K))%nat ->
  (forall c, In c (XYZcenters K) -> is_nan (magnitude (vsub c XYZ)) = false) ->
  let D := fun j => magnitude (vsub (nth j (XYZcenters K) (0, 0, 0)) XYZ) in
  exists t d,
    for_each (closest_step K XYZ) (map Z.of_nat (seq 0 n)) ((-1)%Z, infinity)
    = Ok (t, d)
    /\ is_nan d = false
    /\ (forall j, (j < n)%nat -> (D j <? d) = false)
    /\ ((t = (-1)%Z /\ d = infinity)
        \/ exists k, t = Z.of_nat k /\ (k < n)%nat /\ d = D k
                     /\ forall j, (j < k)%nat -> (D k <? D j) = true).
Proof.
  intros Hn Hnum D.
  assert (HD : forall j, (j < length (XYZcenters K))%nat -> is_nan (D j) = false).
  { intros j Hj. apply Hnum, nth_In, Hj. }
  induction n as [ | n IH].
  - exists (-1)%Z, infinity. simpl. split; [reflexivity | ].
    split; [reflexivity | ]. split; [intros j Hj; lia | now left].
  - destruct IH as (t & d & Hloop & Hd & Hmin & Hfirst); [lia | ].
    rewrite seq_S, map_app, for_each_app, Hloop. simpl.
    rewrite (np_getitem_nat (XYZcenters K) n (0, 0, 0)) by lia. simpl.
    fold (D n).
    destruct (D n <? d) eqn:E; simpl.
    + assert (Hstrict : forall j, (j < n)%nat -> (D n <? D j) = true).
      { intros j Hj. apply (ltb_leb_trans _ d); [exact E | ].
        apply not_ltb_leb; auto. apply HD. lia. }
      exists (Z.of_nat n), (D n). split; [reflexivity | ].
      split; [apply HD; lia | ]. split.
      * intros j Hj. destruct (Nat.eq_dec j n) as [-> | Hne];
          [apply ltb_irrefl | apply ltb_asym, Hstrict; lia].
      * right. exists n. repeat split; auto.
    + exists t, d. split; [reflexivity | ]. split; [exact Hd | ]. split.
      * intros j Hj. destruct (Nat.eq_dec j n) as [-> | Hne];
          [exact E | apply Hmin; lia].
      * destruct Hfirst as [Hinit | (k & Hk & Hlt & Hdk & Hbefore)];
          [now left | right].
        exists k. repeat split; auto.
Qed.

(** ** What the well-formedness checks give *)

Lemma geometry_ok_facts K :
  geometry_ok K = true ->
  (0 < facecount K)%Z
  /\ facecount K = Z.of_nat (length (XYZcenters K))
  /\ facecount K = Z.of_nat (length (vert_indices K))
  /\ (forall a b c, In (a, b, c) (vert_indices K) ->
        (0 <= a < Z.of_nat (length (vertices K)))%Z
        /\ (0 <= b < Z.of_nat (length (vertices K)))%Z
        /\ (0 <= c < Z.of_nat (length (vertices K)))%Z)
  /\ (forall p, In p (vertices K) -> finite3 p = true)
  /\ (forall c, In c (XYZcenters K) -> finite3 c = true).
Proof.
  unfold geometry_ok. rewrite !andb_true_iff, !forallb_forall.
  intros [[[[[H0 H1] H2] H3] H4] H5].
  repeat split; try lia; auto.
  all: specialize (H3 _ H); simpl in H3; lia.
Qed.

Lemma centers_apart_spec K i j :
  centers_apart K = true ->
  (i < length (XYZcenters K))%nat -> (j < length (XYZcenters K))%nat -> i <> j ->
  (0 <? magnitude (vsub (nth i (XYZcenters K) (0, 0, 0))
                        (nth j (XYZcenters K) (0, 0, 0)))) = true.
Proof.
  unfold centers_apart. rewrite forallb_forall. intros H Hi Hj Hij.
  specialize (H i). rewrite forallb_forall in H.
  specialize (H ltac:(apply in_seq; lia) j ltac:(apply in_seq; lia)).
  apply orb_true_iff in H as [H | H]; [ | exact H].
  apply Nat.eqb_eq in H. contradiction.
Qed.

(** ** The ranking table *)

Lemma lcd_of_distances_table d1 d2 d3 :
  lcd_of_distances d1 d2 d3 =
  match first_match (ranking_table d1 d2 d3) with
  | Some lcd => Ok lcd
  | None => Raise UnboundLocalError
  end.
Proof.
  unfold lcd_of_distances, first_match, ranking_table. simpl.
  repeat (match goal with |- context [if ?b then _ else _] => destruct b end;
          simpl; try reflexivity).
Qed.

(** Three numbers always match a row: the six rows are the six ways to
    order three numbers. *)
Lemma ranking_table_total d1 d2 d3 :
  is_nan d1 = false -> is_nan d2 = false -> is_nan d3 = false ->
  exists lcd, first_match (ranking_table d1 d2 d3) = Some lcd /\ (0 <= lcd <= 5)%Z.
Proof.
  intros H1 H2 H3.
  pose proof (leb_total d1 d2 H1 H2) as T12.
  pose proof (leb_total d1 d3 H1 H3) as T13.
  pose proof (leb_total d2 d3 H2 H3) as T23.
  unfold first_match, ranking_table. simpl.
  destruct (d1 <=? d2), (d2 <=? d1), (d1 <=? d3), (d3 <=? d1),
           (d2 <=? d3), (d3 <=? d2); simpl;
    try (eexists; split; [reflexivity | lia]);
    destruct T12, T13, T23; discriminate.
Qed.

(** The chain takes a branch exactly when none of the three distances is
    a NaN: every row compares all three. *)
Lemma lcd_of_distances_returns d1 d2 d3 :
  is_ok (lcd_of_distances d1 d2 d3) = true
  <-> is_nan d1 = false /\ is_nan d2 = false /\ is_nan d3 = false.
Proof.
  split.
  - intros H.
    destruct (is_nan d1) eqn:N1;
      [apply is_nan_true in N1; subst d1;
       unfold lcd_of_distances in H; rewrite !leb_nan_l, !leb_nan_r in H;
       rewrite ?andb_false_r in H; discriminate H | ].
    destruct (is_nan d2) eqn:N2;
      [apply is_nan_true in N2; subst d2;
       unfold lcd_of_distances in H; rewrite !leb_nan_l, !leb_nan_r in H;
       rewrite ?andb_false_r in H; discriminate H | ].
    destruct (is_nan d3) eqn:N3;
      [apply is_nan_true in N3; subst d3;
       unfold lcd_of_distances in H; rewrite !leb_nan_l, !leb_nan_r in H;
       rewrite ?andb_false_r in H; discriminate H | ].
    auto.
  - intros (N1 & N2 & N3).
    destruct (ranking_table_total d1 d2 d3 N1 N2 N3) as (lcd & Hlcd & _).
    rewrite lcd_of_distances_table, Hlcd. reflexivity.
Qed.

Lemma ranking_table_equidistant d1 d2 d3 :
  (d1 =? d2) = true -> (d2 =? d3) = true ->
  first_match (ranking_table d1 d2 d3) = Some 0%Z.
Proof.
  intros H12 H23. apply eqb_leb in H12, H23.
  unfold first_match, ranking_table. simpl. rewrite H12, H23. reflexivity.
Qed.

(** The second half of [fullerTriangle] on a finite point, once the loop
    has ended on [tri]. *)
Lemma fullerTriangle_after_loop K XYZ tri :
  geometry_ok K = true -> finite3 XYZ = true ->
  closest_face K XYZ = Ok tri -> (-1 <= tri < facecount K)%Z ->
  exists v1 v2 v3 p1 p2 p3 lcd,
    np_getitem (vert_indices K) tri = Ok (v1, v2, v3)
    /\ np_getitem (vertices K) v1 = Ok p1
    /\ np_getitem (vertices K) v2 = Ok p2
    /\ np_getitem (vertices K) v3 = Ok p3
    /\ first_match (ranking_table (distance XYZ p1) (distance XYZ p2)
                                  (distance XYZ p3)) = Some lcd
    /\ (0 <= lcd <= 5)%Z
    /\ fullerTriangle K XYZ = Ok (tri, lcd).
Proof.
  intros HK HX Hloop Htri.
  destruct (geometry_ok_facts K HK) as (Hfc & Hlc & Hlv & Hidx & Hvert & _).
  assert (Hrow : exists row, np_getitem (vert_indices K) tri = Ok row
                             /\ In row (vert_indices K)).
  { destruct (Z.eq_dec tri (-1)) as [-> | Hne].
    - apply np_getitem_last. intros E. rewrite E in Hlv. simpl in Hlv. lia.
    - apply np_getitem_in_range. lia. }
  destruct Hrow as ([[v1 v2] v3] & Hrow & Hin).
  destruct (Hidx _ _ _ Hin) as (R1 & R2 & R3).
  destruct (np_getitem_in_range (vertices K) v1 R1) as (p1 & E1 & I1).
  destruct (np_getitem_in_range (vertices K) v2 R2) as (p2 & E2 & I2).
  destruct (np_getitem_in_range (vertices K) v3 R3) as (p3 & E3 & I3).
  destruct (ranking_table_total (distance XYZ p1) (distance XYZ p2) (distance XYZ p3))
    as (lcd & Hlcd & Hr); try (apply distance_number; auto).
  exists v1, v2, v3, p1, p2, p3, lcd.
  repeat (split; [assumption | ]).
  unfold fullerTriangle. rewrite Hloop. simpl.
  rewrite Hrow. simpl. rewrite E1. simpl. rewrite E2. simpl. rewrite E3. simpl.
  rewrite lcd_of_distances_table, Hlcd. reflexivity.
Qed.

Lemma closest_face_total K XYZ :
  geometry_ok K = true ->
  exists tri, closest_face K XYZ = Ok tri /\ (-1 <= tri < facecount K)%Z.
Proof.
  intros HK.
  destruct (geometry_ok_facts K HK) as (Hfc & Hlc & _).
  destruct (closest_loop_total K XYZ (range (facecount K))) with (st := ((-1)%Z, infinity))
    as (t & d & Heq & Ht).
  { intros i Hi. apply in_range in Hi. lia. }
  exists t. unfold closest_face. rewrite Heq. simpl. split; [reflexivity | ].
  destruct Ht as [-> | Ht]; [simpl; lia | apply in_range in Ht; lia].
Qed.

(** Step 1 of the face locator, on any finite point: the face returned is
    the first one among those whose center is closest (or -1 when every
    computed distance is infinite). *)
Lemma closest_face_first_minimum K XYZ :
  geometry_ok K = true -> finite3 XYZ = true ->
  exists tri, closest_face K XYZ = Ok tri /\ first_minimum K XYZ tri.
Proof.
  intros HK HX. unfold first_minimum.
  destruct (geometry_ok_facts K HK) as (_ & Hlc & _ & _ & _ & Hfin).
  destruct (closest_loop_first_minimum K XYZ (length (XYZcenters K)))
    as (t & d & Hloop & _ & Hmin & Hfirst); [lia | | ].
  { intros c Hc. apply magnitude_vsub_number; auto. }
  exists t. unfold closest_face, range. rewrite Hlc, Nat2Z.id, Hloop. simpl.
  split; [reflexivity | ].
  destruct Hfirst as [[-> ->] | (k & -> & Hk & -> & Hbefore)].
  - left. split; [reflexivity | exact Hmin].
  - right. exists k. repeat split; auto.
Qed.

(** C1.  On a finite point (every unit vector is one) and well-formed
    tables, [fullerTriangle] returns the face the loop located (the first
    one of smallest distance) together with the index the ranking table gives for the distances d1, d2, d3 to that
    face's three vertices, taken in the face's vertex order: the first row
    that matches among d1<=d2<=d3 -> 0, d1<=d3<=d2 -> 5, d2<=d1<=d3 -> 1,
    d2<=d3<=d1 -> 2, d3<=d1<=d2 -> 4, d3<=d2<=d1 -> 3.  A point at equal
    distance from the three vertices gets index 0. *)
Theorem fullerTriangle_lcd_ranking K XYZ :
  geometry_ok K = true -> finite3 XYZ = true ->
  exists tri v1 v2 v3 p1 p2 p3 lcd,
    closest_face K XYZ = Ok tri
    /\ first_minimum K XYZ tri
    /\ np_getitem (vert_indices K) tri = Ok (v1, v2, v3)
    /\ np_getitem (vertices K) v1 = Ok p1
    /\ np_getitem (vertices K) v2 = Ok p2
    /\ np_getitem (vertices K) v3 = Ok p3
    /\ first_match (ranking_table (distance XYZ p1) (distance XYZ p2)
                                  (distance XYZ p3)) = Some lcd
    /\ fullerTriangle K XYZ = Ok (tri, lcd)
    /\ ((distance XYZ p1 =? distance XYZ p2) = true ->
        (distance XYZ p2 =? distance XYZ p3) = true -> lcd = 0%Z).
Proof.
  intros HK HX.
  destruct (closest_face_first_minimum K XYZ HK HX) as (tri & Hloop & Hmin).
  destruct (closest_face_total K XYZ HK) as (tri' & Hloop' & Htri).
  assert (tri' = tri) by congruence. subst tri'.
  destruct (fullerTriangle_after_loop K XYZ tri HK HX Hloop Htri)
    as (v1 & v2 & v3 & p1 & p2 & p3 & lcd & Hrow & E1 & E2 & E3 & Hlcd & _ & Hft).
  exists tri, v1, v2, v3, p1, p2, p3, lcd.
  repeat (split; [assumption | ]).
  intros H12 H23.
  rewrite (ranking_table_equidistant _ _ _ H12 H23) in Hlcd.
  congruence.
Qed.

(** C1, on the sample icosahedron at the north pole. *)
Lemma fullerTriangle_lcd_ranking_witness :
  exists tri lcd, fullerTriangle Sample.constants (0, 0, 1) = Ok (tri, lcd).
Proof.
  destruct (fullerTriangle_lcd_ranking Sample.constants (0, 0, 1))
    as (tri & _ & _ & _ & _ & _ & _ & lcd & _ & _ & _ & _ & _ & _ & _ & H & _).
  - vm_compute. reflexivity.
  - vm_compute. reflexivity.
  - exists tri, lcd. exact H.
Defined.

(** ** A face center is classified into its own face *)

Lemma closest_face_center K f :
  geometry_ok K = true -> centers_apart K = true -> (0 <= f < facecount K)%Z ->
  exists c, np_getitem (XYZcenters K) f = Ok c
            /\ finite3 c = true
            /\ magnitude (vsub c c) = 0
            /\ closest_face K c = Ok f.
Proof.
  intros HK Hapart Hf.
  destruct (geometry_ok_facts K HK) as (_ & Hlc & _ & _ & _ & Hfin).
  set (d := (0, 0, 0) : vec3).
  set (c := nth (Z.to_nat f) (XYZcenters K) d).
  assert (Hget : forall i, (0 <= i < facecount K)%Z ->
                 np_getitem (XYZcenters K) i = Ok (nth (Z.to_nat i) (XYZcenters K) d)).
  { intros i Hi. rewrite <- (np_getitem_nat (XYZcenters K) (Z.to_nat i) d) by lia.
    rewrite Z2Nat.id by lia. reflexivity. }
  assert (Hc : finite3 c = true) by (apply Hfin, nth_In; lia).
  assert (Hfar : forall i, (0 <= i < facecount K)%Z -> i <> f ->
                 exists ci, np_getitem (XYZcenters K) i = Ok ci
                            /\ (0 <? magnitude (vsub ci c)) = true).
  { intros i Hi Hne. eexists. split; [apply Hget, Hi | ].
    apply centers_apart_spec; try assumption; lia. }
  exists c. split; [apply Hget, Hf | ]. split; [exact Hc | ].
  split; [apply magnitude_vsub_diag, Hc | ].
  unfold closest_face. rewrite (range_split (facecount K) f Hf), for_each_app.
  destruct (closest_loop_positive K c (range f)) with (st := ((-1)%Z, infinity))
    as ([t1 d1] & -> & Hpos).
  { intros i Hi. apply in_range in Hi. apply Hfar; lia. }
  { reflexivity. }
  simpl bind. simpl for_each. rewrite (Hget f Hf). fold c. simpl bind.
  rewrite (magnitude_vsub_diag c Hc). simpl in Hpos. rewrite Hpos. simpl bind.
  rewrite closest_loop_keep; [reflexivity | ].
  intros i Hi. apply in_map_iff in Hi as (k & <- & Hk). apply in_seq in Hk.
  destruct (Hfar (Z.of_nat k)) as (ci & Hci & Hd); try lia.
  exists ci. split; [exact Hci | ]. simpl. apply zero_ltb_not_ltb, Hd.
Qed.

(** C6.  With well-formed tables whose centers are pairwise apart, for every
    face index f (0..19 when [facecount] is 20) [fullerTriangle] applied to
    the center of face f returns f as the face index: that center is at
    distance zero from itself and every other center is strictly farther,
    so the loop, which keeps the first index of the smallest distance under
    its strict comparison, settles on f. *)
Theorem fullerTriangle_center_own_face K f :
  geometry_ok K = true -> centers_apart K = true -> (0 <= f < facecount K)%Z ->
  exists c lcd,
    np_getitem (XYZcenters K) f = Ok c
    /\ magnitude (vsub c c) = 0
    /\ (forall j cj, j <> f -> (0 <= j < facecount K)%Z ->
          np_getitem (XYZcenters K) j = Ok cj ->
          (magnitude (vsub c c) <? magnitude (vsub cj c)) = true)
    /\ closest_face K c = Ok f
    /\ first_minimum K c f
    /\ fullerTriangle K c = Ok (f, lcd).
Proof.
  intros HK Hapart Hf.
  destruct (closest_face_center K f HK Hapart Hf) as (c & Hget & Hc & Hzero & Hloop).
  destruct (fullerTriangle_after_loop K c f HK Hc Hloop)
    as (_ & _ & _ & _ & _ & _ & lcd & _ & _ & _ & _ & _ & _ & Hft); [lia | ].
  destruct (closest_face_first_minimum K c HK Hc) as (tri & Htri & Hmin).
  assert (tri = f) by congruence. subst tri.
  exists c, lcd. repeat (split; [assumption | ]).
  split; [ | repeat split; assumption].
  intros j cj Hne Hj Hcj. rewrite Hzero.
  destruct (geometry_ok_facts K HK) as (_ & Hlc & _).
  set (d := (0, 0, 0) : vec3).
  assert (Hnth : forall i, (0 <= i < facecount K)%Z ->
                 np_getitem (XYZcenters K) i = Ok (nth (Z.to_nat i) (XYZcenters K) d)).
  { intros i Hi. rewrite <- (np_getitem_nat (XYZcenters K) (Z.to_nat i) d) by lia.
    rewrite Z2Nat.id by lia. reflexivity. }
  rewrite (Hnth j Hj) in Hcj. rewrite (Hnth f Hf) in Hget.
  injection Hcj as <-. injection Hget as <-.
  apply centers_apart_spec; try assumption; lia.
Qed.

(** C6, on the sample icosahedron at face 7. *)
Lemma fullerTriangle_center_own_face_witness :
  exists c lcd, np_getitem (XYZcenters Sample.constants) 7 = Ok c
                /\ fullerTriangle Sample.constants c = Ok (7%Z, lcd).
Proof.
  destruct (fullerTriangle_center_own_face Sample.constants 7)
    as (c & lcd & Hc & _ & _ & _ & _ & H).
  - vm_compute. reflexivity.
  - vm_compute. reflexivity.
  - change (0 <= 7 < 20)%Z. lia.
  - exists c, lcd. split; assumption.
Defined.

(** ** NaN coordinates *)

(** On a point with a NaN coordinate [fullerTriangle] never returns: the
    loop leaves [h_tri] at -1, the three distances are NaN, no branch of the
    if/elif chain is taken, and the [return] finds [h_lcd] unbound (or a
    table lookup has failed before). *)
Lemma fullerTriangle_nan_in K XYZ :
  nan_in XYZ ->
  fullerTriangle K XYZ = Raise UnboundLocalError
  \/ fullerTriangle K XYZ = Raise IndexError.
Proof.
  intros Hnan. unfold fullerTriangle, closest_face.
  destruct (closest_loop_nan K XYZ (range (facecount K)) ((-1)%Z, infinity) Hnan)
    as [-> | ->]; simpl; [ | now right].
  destruct (np_getitem_cases (vert_indices K) (-1)) as [([[v1 v2] v3] & -> & _) | ->];
    simpl; [ | now right].
  destruct (np_getitem_cases (vertices K) v1) as [(p1 & -> & _) | ->];
    simpl; [ | now right].
  destruct (np_getitem_cases (vertices K) v2) as [(p2 & -> & _) | ->];
    simpl; [ | now right].
  destruct (np_getitem_cases (vertices K) v3) as [(p3 & -> & _) | ->];
    simpl; [ | now right].
  rewrite !distance_nan by assumption. now left.
Qed.

(** With well-formed tables no lookup fails, and the exception is the
    unbound [h_lcd]. *)
Lemma fullerTriangle_nan_unbound K XYZ :
  geometry_ok K = true -> nan_in XYZ ->
  fullerTriangle K XYZ = Raise UnboundLocalError.
Proof.
  intros HK Hnan.
  destruct (geometry_ok_facts K HK) as (Hfc & Hlc & Hlv & Hidx & _).
  unfold fullerTriangle, closest_face.
  destruct (closest_loop_nan K XYZ (range (facecount K)) ((-1)%Z, infinity) Hnan)
    as [-> | Hraise].
  - simpl.
    destruct (np_getitem_last (vert_indices K)) as ([[v1 v2] v3] & Hrow & Hin).
    { intros E. rewrite E in Hlv. simpl in Hlv. lia. }
    destruct (Hidx _ _ _ Hin) as (R1 & R2 & R3).
    destruct (np_getitem_in_range (vertices K) v1 R1) as (p1 & E1 & _).
    destruct (np_getitem_in_range (vertices K) v2 R2) as (p2 & E2 & _).
    destruct (np_getitem_in_range (vertices K) v3 R3) as (p3 & E3 & _).
    rewrite Hrow. simpl. rewrite E1. simpl. rewrite E2. simpl. rewrite E3. simpl.
    rewrite !distance_nan by assumption. reflexivity.
  - destruct (closest_loop_total K XYZ (range (facecount K)))
      with (st := ((-1)%Z, infinity)) as (t & d & Heq & _).
    { intros i Hi. apply in_range in Hi. lia. }
    congruence.
Qed.

(** [math.cos] of a NaN is whatever the C function returns: no domain
    error is raised for a NaN argument. *)
Lemma math_1_nan func : math_1 func nan = Ok (func nan).
Proof.
  unfold math_1.
  change (is_nan nan) with true. change (is_finite nan) with false.
  rewrite !andb_false_r. reflexivity.
Qed.

(** C9 (the code raises where the claim says it does not).  For every
    geometry table, [fullerTriangle] on a point with a NaN coordinate raises
    instead of returning a (face, lcd) pair: [UnboundLocalError], unless a
    table lookup has raised [IndexError] before.  With a C library whose
    cosine of NaN is NaN, the body of [lonlat2dymax] raises on a NaN
    longitude for every latitude. *)
Theorem fullerTriangle_nan_raises lm K x y z :
  (fullerTriangle K (nan, y, z) = Raise UnboundLocalError
   \/ fullerTriangle K (nan, y, z) = Raise IndexError)
  /\ (fullerTriangle K (x, nan, z) = Raise UnboundLocalError
      \/ fullerTriangle K (x, nan, z) = Raise IndexError)
  /\ (fullerTriangle K (x, y, nan) = Raise UnboundLocalError
      \/ fullerTriangle K (x, y, nan) = Raise IndexError)
  /\ (geometry_ok K = true -> fullerTriangle K (nan, y, z) = Raise UnboundLocalError)
  /\ (c_cos lm nan = nan ->
      forall lat getlcd, is_ok (lonlat2dymax_body lm K nan lat getlcd) = false).
Proof.
  repeat split.
  - apply fullerTriangle_nan_in. simpl. auto.
  - apply fullerTriangle_nan_in. simpl. auto.
  - apply fullerTriangle_nan_in. simpl. auto.
  - intros HK. apply fullerTriangle_nan_unbound; simpl; auto.
  - intros Hcos lat getlcd. unfold lonlat2dymax_body, lonlat2spherical.
    rewrite ltb_nan_l. unfold math_radians at 2. rewrite mul_nan_l.
    unfold spherical2cartesian, math_cos at 1, math_sin at 1.
    destruct (math_1 (c_sin lm) (math_radians (90 - lat))) as [st | e];
      simpl; [ | reflexivity].
    rewrite math_1_nan, Hcos. simpl. rewrite mul_nan_r.
    destruct (math_sin lm nan) as [sp | e]; simpl; [ | reflexivity].
    destruct (math_cos lm _) as [ct | e]; simpl; [ | reflexivity].
    destruct (fullerTriangle_nan_in K (nan, st * sp, ct)) as [-> | ->];
      simpl; auto.
Qed.

(** The failing call on the sample icosahedron. *)
Example fullerTriangle_nan_sample :
  fullerTriangle Sample.constants (nan, 0, 0) = Raise UnboundLocalError.
Proof. vm_compute. reflexivity. Qed.

(** ** The [math] wrappers *)

Lemma math_1_ok func x r : math_1 func x = Ok r -> r = func x.
Proof.
  unfold math_1.
  destruct (is_nan (func x) && negb (is_nan x)); [discriminate | ].
  destruct (is_infinity (func x) && is_finite x); [discriminate | ].
  congruence.
Qed.

Lemma math_2_ok func x y r : math_2 func x y = Ok r -> r = func x y.
Proof.
  unfold math_2.
  destruct (is_nan (func x y)).
  - destruct (negb (is_nan x) && negb (is_nan y)); [discriminate | congruence].
  - destruct (is_infinity (func x y)); [ | congruence].
    destruct (is_finite x && is_finite y); [discriminate | congruence].
Qed.

(** ** Spherical coordinates *)

(** C5.  [lonlat2spherical(lng, lat)] is
    [(radians(90 - lat), radians(lng + 360))] when [lng < 0] and
    [(radians(90 - lat), radians(lng))] when [lng >= 0]; nothing is checked,
    a NaN goes through; and [lonlat2spherical(179, 89)] is the pair of
    doubles that print as (0.017453292519943295, 3.12413936106985) (the
    decimal literals denote the nearest doubles, as they do in Python). *)
Theorem lonlat2spherical_cases lng lat :
  ((lng <? 0) = true ->
   lonlat2spherical lng lat = (math_radians (90 - lat), math_radians (lng + 360)))
  /\ ((0 <=? lng) = true ->
      lonlat2spherical lng lat = (math_radians (90 - lat), math_radians lng))
  /\ lonlat2spherical nan lat = (math_radians (90 - lat), nan)
  /\ lonlat2spherical 179 89 = (0.017453292519943295, 3.12413936106985).
Proof.
  unfold lonlat2spherical. split; [ | split; [ | split]].
  - intros ->. reflexivity.
  - intros H. rewrite (zero_leb_not_ltb lng H). reflexivity.
  - rewrite ltb_nan_l. unfold math_radians at 2. rewrite mul_nan_l. reflexivity.
  - vm_compute. reflexivity.
Qed.

(** C4.  [cartesian2spherical] returns the pair [atan2(y, x)], [acos(z)] in
    that order, and returns exactly when both [math] calls do.  The first
    slot is the azimuth and the second the polar angle, the other way round
    from the arguments of [spherical2cartesian(theta, phi)], whose first
    argument [theta] fixes [z = cos(theta)]: converting there and back, the
    second slot is [acos(cos(theta))], the first is an [atan2] of the
    pair [sin(theta)sin(phi)], [sin(theta)cos(phi)]. *)
Theorem cartesian2spherical_order lm x y z :
  (forall t p,
     cartesian2spherical lm (x, y, z) = Ok (t, p)
     <-> math_atan2 lm y x = Ok t /\ math_acos lm z = Ok p)
  /\ (forall t p,
        cartesian2spherical lm (x, y, z) = Ok (t, p) ->
        t = c_atan2 lm y x /\ p = c_acos lm z)
  /\ (forall theta phi X Y Z t p,
        spherical2cartesian lm theta phi = Ok (X, Y, Z) ->
        cartesian2spherical lm (X, Y, Z) = Ok (t, p) ->
        Z = c_cos lm theta
        /\ p = c_acos lm (c_cos lm theta)
        /\ t = c_atan2 lm (c_sin lm theta * c_sin lm phi)
                          (c_sin lm theta * c_cos lm phi)).
Proof.
  assert (Hiff : forall a b c t p,
     cartesian2spherical lm (a, b, c) = Ok (t, p)
     <-> math_atan2 lm b a = Ok t /\ math_acos lm c = Ok p).
  { intros a b c t p. unfold cartesian2spherical.
    destruct (math_acos lm c) as [p' | e]; simpl.
    - destruct (math_atan2 lm b a) as [t' | e]; simpl.
      + split; [intros H; injection H as -> ->; auto | ].
        intros [H1 H2]. congruence.
      + split; [discriminate | intros [H _]; discriminate].
    - split; [discriminate | intros [_ H]; discriminate]. }
  assert (Hval : forall a b c t p,
     cartesian2spherical lm (a, b, c) = Ok (t, p) ->
     t = c_atan2 lm b a /\ p = c_acos lm c).
  { intros a b c t p H. apply Hiff in H as [Ht Hp].
    split; [apply (math_2_ok _ _ _ _ Ht) | apply (math_1_ok _ _ _ Hp)]. }
  split; [apply Hiff | ]. split; [apply Hval | ].
  intros theta phi X Y Z t p Hfwd Hinv.
  unfold spherical2cartesian in Hfwd.
  destruct (math_sin lm theta) as [st | ] eqn:Est; simpl in Hfwd; [ | discriminate].
  destruct (math_cos lm phi) as [cp | ] eqn:Ecp; simpl in Hfwd; [ | discriminate].
  destruct (math_sin lm phi) as [sp | ] eqn:Esp; simpl in Hfwd; [ | discriminate].
  destruct (math_cos lm theta) as [ct | ] eqn:Ect; simpl in Hfwd; [ | discriminate].
  injection Hfwd as <- <- <-.
  apply math_1_ok in Est, Ecp, Esp, Ect. subst st cp sp ct.
  apply Hval in Hinv as [-> ->]. auto.
Qed.

(** ** Rotations *)

(** C10.  For an axis k in 0 (X), 1 (Y), 2 (Z), any angle, any vector and
    either value of [reverse], the vector [rotate3d] returns has the same
    k-th component as its argument; and it does return a vector whenever
    [math.cos] and [math.sin] accept the (possibly negated) angle. *)
Theorem rotate3d_keeps_axis lm k alpha v reverse :
  (0 <= k <= 2)%Z ->
  (forall out, rotate3d lm k alpha v reverse = Ok out ->
               component k out = component k v)
  /\ (is_ok (math_cos lm (if reverse then - alpha else alpha)) = true ->
      is_ok (math_sin lm (if reverse then - alpha else alpha)) = true ->
      is_ok (rotate3d lm k alpha v reverse) = true).
Proof.
  intros Hk. destruct v as [[X0 X1] X2]. unfold rotate3d.
  set (a := if reverse then - alpha else alpha).
  assert (Hcases : k = 0%Z \/ k = 1%Z \/ k = 2%Z) by lia.
  destruct Hcases as [-> | [-> | ->]]; simpl;
    destruct (math_cos lm a) as [c | ]; simpl;
    destruct (math_sin lm a) as [s | ]; simpl;
    (split; [intros out H; try discriminate H; injection H as <-; reflexivity
            | intros; congruence]).
Qed.

(** C10, on the vector of the docstring: a turn of pi/4 about X. *)
Lemma rotate3d_keeps_axis_witness :
  exists out, rotate3d Sample.libm 0 (math_pi / 4) (0.3, 0.5, 0.4) true = Ok out
              /\ component 0 out = 0.3.
Proof.
  destruct (rotate3d_keeps_axis Sample.libm 0 (math_pi / 4) (0.3, 0.5, 0.4) true)
    as [Hframe Hret]; [lia | ].
  destruct (rotate3d Sample.libm 0 (math_pi / 4) (0.3, 0.5, 0.4) true)
    as [out | e] eqn:E.
  - exists out. split; [reflexivity | apply (Hframe out eq_refl)].
  - exfalso. assert (H : false = true); [ | discriminate H].
    apply Hret; vm_compute; reflexivity.
Defined.

(** ** Placement *)

Lemma dymax_placement_spec K tri lcd :
  dymax_placement K tri lcd = spec_placement K tri lcd.
Proof.
  unfold dymax_placement, spec_placement.
  destruct (Z.eqb_spec tri 8) as [-> | H8]; simpl.
  - destruct (lcd <? 4)%Z; reflexivity.
  - destruct (tri =? 15)%Z, (lcd <? 3)%Z; reflexivity.
Qed.

(** C2.  [dymax_point] first computes the re-scaled point from the face and
    the input vector alone, then takes the special override placement exactly
    when (tri = 8 and lcd < 4) or (tri = 15 and lcd < 3) and the table entry
    of face tri otherwise, rotates the re-scaled point by the placement's
    angle with the right-hand rotation matrix, and then adds the
    translation. *)
Theorem dymax_point_placement lm K tri lcd XYZ :
  dymax_point lm K tri lcd XYZ =
    ('(x, y) <- dymax_rescaled lm K tri XYZ ;;
     placement <- spec_placement K tri lcd ;;
     spec_rotate_translate lm placement x y)
  /\ ((tri = 8 /\ lcd < 4)%Z ->
      dymax_placement K tri lcd = Ok (dymax_translate08_special K))
  /\ ((tri = 15 /\ lcd < 3)%Z ->
      dymax_placement K tri lcd = Ok (dymax_translate15_special K))
  /\ (~ ((tri = 8 /\ lcd < 4) \/ (tri = 15 /\ lcd < 3))%Z ->
      dymax_placement K tri lcd = np_getitem (dymax_translate K) tri).
Proof.
  split; [ | split; [ | split]].
  - unfold dymax_point. rewrite dymax_placement_spec.
    destruct (dymax_rescaled lm K tri XYZ) as [[x y] | e]; simpl; [ | reflexivity].
    destruct (spec_placement K tri lcd) as [[[xt yt] rot] | e]; simpl; [ | reflexivity].
    unfold rotate2d.
    destruct (math_cos lm (math_radians rot)) as [c | e]; simpl; [ | reflexivity].
    destruct (math_sin lm (math_radians rot)) as [s | e]; reflexivity.
  - intros [-> H]. unfold dymax_placement.
    apply Z.ltb_lt in H. rewrite H. reflexivity.
  - intros [-> H]. unfold dymax_placement.
    apply Z.ltb_lt in H. rewrite H. reflexivity.
  - intros H. unfold dymax_placement.
    destruct (Z.eqb_spec tri 8) as [E8 | _], (Z.ltb_spec lcd 4) as [L4 | _];
      simpl; try (exfalso; apply H; left; split; assumption);
      destruct (Z.eqb_spec tri 15) as [E15 | _], (Z.ltb_spec lcd 3) as [L3 | _];
      simpl; try reflexivity; exfalso; apply H; right; split; assumption.
Qed.

(** ** The memo cache *)

Section CachedFacts.

Variable V : Type.
Variable function : list pyval -> list (string * pyval) -> result V.

Lemma wrapper_hit cache args kwargs r :
  cache_get V cache args = Some r ->
  wrapper V function cache args kwargs = (Ok r, cache).
Proof. intros H. unfold wrapper. rewrite H. reflexivity. Qed.

(** A key that equals itself is found right after it was stored. *)
Lemma wrapper_stores cache args kwargs r cache1 :
  args_eqb args args = true ->
  wrapper V function cache args kwargs = (Ok r, cache1) ->
  cache_get V cache1 args = Some r.
Proof.
  intros Hrefl. unfold wrapper.
  destruct (cache_get V cache args) as [r0 | ] eqn:Hget.
  - intros H. injection H as <- <-. exact Hget.
  - destruct (function args kwargs) as [r0 | e]; intros H; [ | discriminate H].
    injection H as <- <-. simpl. rewrite Hrefl. reflexivity.
Qed.

(** Calling twice with the same arguments gives the same outcome twice,
    whatever the cache held before. *)
Lemma wrapper_twice cache args kwargs :
  fst (wrapper V function (snd (wrapper V function cache args kwargs)) args kwargs)
  = fst (wrapper V function cache args kwargs).
Proof.
  unfold wrapper at 2 3.
  destruct (cache_get V cache args) as [r | ] eqn:Hget; simpl.
  - unfold wrapper. rewrite Hget. reflexivity.
  - destruct (function args kwargs) as [r | e] eqn:Hf; simpl.
    + unfold wrapper. simpl.
      destruct (args_eqb args args); [reflexivity | ].
      rewrite Hget, Hf. reflexivity.
    + unfold wrapper. rewrite Hget, Hf. reflexivity.
Qed.

End CachedFacts.

(** C7.  Two calls of [lonlat2dymax] in a row with the same arguments give
    the same outcome, whatever the cache held before the first; when the
    first returns a value (under a key that equals itself, that is without
    NaN) the value is in the cache afterwards and the second call returns it
    and leaves the cache as it is. *)
Theorem lonlat2dymax_deterministic lm K cache args kwargs :
  fst (lonlat2dymax lm K (snd (lonlat2dymax lm K cache args kwargs)) args kwargs)
  = fst (lonlat2dymax lm K cache args kwargs)
  /\ (forall r cache1,
        args_eqb args args = true ->
        lonlat2dymax lm K cache args kwargs = (Ok r, cache1) ->
        cache_get dymax_xy cache1 args = Some r
        /\ lonlat2dymax lm K cache1 args kwargs = (Ok r, cache1)).
Proof.
  split.
  - apply wrapper_twice.
  - intros r cache1 Hrefl H.
    pose proof (wrapper_stores _ _ _ _ _ _ _ Hrefl H) as Hget.
    split; [exact Hget | ]. apply wrapper_hit, Hget.
Qed.

(** C3 (the code misses what the claim says).  The key of the cache is the
    tuple of positional arguments: a [getlcd] passed by keyword is not part
    of it.  After a call [lonlat2dymax(lng, lat)] has returned [r], the call
    [lonlat2dymax(lng, lat, getlcd=True)] returns the same [r] from the
    cache, and from an empty cache that [r] is a pair [(x, y)], not a
    triple.  A [getlcd] passed by position is part of the key. *)
Theorem lonlat2dymax_keyword_flag_not_in_key lm K cache lng lat r cache1 :
  args_eqb [lng; lat] [lng; lat] = true ->
  lonlat2dymax lm K cache [lng; lat] [] = (Ok r, cache1) ->
  lonlat2dymax lm K cache1 [lng; lat] [("getlcd"%string, PyBool true)] = (Ok r, cache1)
  /\ (cache = empty_cache -> exists x y, r = XY x y)
  /\ args_eqb [lng; lat] [lng; lat; PyBool true] = false
  /\ args_eqb [lng; lat; PyBool false] [lng; lat; PyBool true] = false.
Proof.
  intros Hrefl H.
  split; [ | split; [ | split]].
  - apply wrapper_hit. exact (wrapper_stores _ _ _ _ _ _ _ Hrefl H).
  - intros ->. unfold lonlat2dymax, cached, wrapper in H. simpl in H.
    unfold lonlat2dymax_undecorated in H. simpl in H.
    unfold lonlat2dymax_body in H.
    destruct (lonlat2spherical (as_float lng) (as_float lat)) as [theta phi].
    destruct (spherical2cartesian lm theta phi) as [XYZ | ]; simpl in H;
      [ | discriminate H].
    destruct (fullerTriangle K XYZ) as [[tri lcd] | ]; simpl in H;
      [ | discriminate H].
    destruct (dymax_point lm K tri lcd XYZ) as [[x y] | ]; simpl in H;
      [ | discriminate H].
    injection H as <- _. eauto.
  - simpl. destruct (pyval_eqb lng lng), (pyval_eqb lat lat); reflexivity.
  - simpl. destruct (pyval_eqb lng lng), (pyval_eqb lat lat); reflexivity.
Qed.

(** C3, on the sample instance at the point of the docstring. *)
Lemma lonlat2dymax_keyword_flag_not_in_key_witness :
  exists x y cache1,
    lonlat2dymax Sample.libm Sample.constants cache1
      [PyFloat (-77.0367); PyFloat 38.8951] [("getlcd"%string, PyBool true)]
    = (Ok (XY x y), cache1).
Proof.
  destruct (lonlat2dymax Sample.libm Sample.constants empty_cache
              [PyFloat (-77.0367); PyFloat 38.8951] []) as [[r | e] cache1] eqn:E.
  - destruct (lonlat2dymax_keyword_flag_not_in_key Sample.libm Sample.constants
                empty_cache (PyFloat (-77.0367)) (PyFloat 38.8951) r cache1)
      as (Hhit & Hxy & _).
    + vm_compute. reflexivity.
    + exact E.
    + destruct (Hxy eq_refl) as (x & y & ->). exists x, y, cache1. exact Hhit.
  - exfalso. vm_compute in E. discriminate E.
Defined.

(** ** The ring of [face2dymax] *)

Lemma length_list_set {A : Type} (l : list A) n v :
  length (list_set l n v) = length l.
Proof.
  revert n. induction l as [ | h t IH]; intros [ | n]; simpl; auto.
Qed.

Lemma nth_list_set_eq {A : Type} (l : list A) n v d :
  (n < length l)%nat -> nth n (list_set l n v) d = v.
Proof.
  revert n. induction l as [ | h t IH]; intros [ | n] H; simpl in *; try lia; auto.
  apply IH. lia.
Qed.

Lemma nth_list_set_neq {A : Type} (l : list A) n m v d :
  n <> m -> nth m (list_set l n v) d = nth m l d.
Proof.
  revert n m. induction l as [ | h t IH]; intros [ | n] [ | m] H; simpl; auto.
  congruence.
Qed.

Lemma np_setitem_nat {A : Type} (l : list A) (i : nat) v :
  (i < length l)%nat -> np_setitem l (Z.of_nat i) v = Ok (list_set l i v).
Proof.
  intros H. unfold np_setitem.
  destruct (Z.ltb_spec (Z.of_nat i) 0) as [? | _]; [lia | ].
  destruct (Z.leb_spec 0 (Z.of_nat i)) as [_ | ?]; [ | lia].
  destruct (Z.ltb_spec (Z.of_nat i) (Z.of_nat (length l))) as [_ | ?]; [ | lia].
  simpl. rewrite Nat2Z.id. reflexivity.
Qed.


Section Fill.

Variable P : Type.
Variable d : P.

(** The point computed at each turn. *)
Variable pt : Z -> result P.

(** A loop that writes rows [a .. a+len-1] returns, when it returns, an
    array of the same length whose rows in that range are the computed
    points and whose other rows are as before. *)
Lemma fill_loop_result len :
  forall a points points',
    (a + len <= length points)%nat ->
    for_each (fill_step pt) (map Z.of_nat (seq a len)) points = Ok points' ->
    length points' = length points
    /\ (forall j, (a <= j < a + len)%nat -> pt (Z.of_nat j) = Ok (nth j points' d))
    /\ (forall j, ~ (a <= j < a + len)%nat -> nth j points' d = nth j points d).
Proof.
  induction len as [ | len IH]; intros a points points' Hlen H; simpl in H.
  - injection H as <-. repeat split; intros; auto; lia.
  - unfold fill_step at 1 in H.
    destruct (pt (Z.of_nat a)) as [p | e] eqn:Hp; simpl in H; [ | discriminate H].
    rewrite np_setitem_nat in H by lia. simpl in H.
    apply IH in H; [ | rewrite length_list_set; lia].
    destruct H as (Hl & Hin & Hout). rewrite length_list_set in Hl.
    split; [exact Hl | ]. split.
    + intros j Hj. destruct (Nat.eq_dec j a) as [-> | Hne].
      * rewrite Hout by lia. rewrite nth_list_set_eq by lia. exact Hp.
      * apply Hin. lia.
    + intros j Hj. rewrite Hout by lia. apply nth_list_set_neq. lia.
Qed.


(** The loop raises as soon as one turn's point is not computed. *)
Lemma fill_loop_raises len :
  forall a points j,
    (a <= j < a + len)%nat -> is_ok (pt (Z.of_nat j)) = false ->
    is_ok (for_each (fill_step pt) (map Z.of_nat (seq a len)) points) = false.
Proof.
  induction len as [ | len IH]; intros a points j Hj Hbad; [lia | ]. simpl.
  unfold fill_step at 1.
  destruct (pt (Z.of_nat a)) as [p | e] eqn:Hp; simpl; [ | reflexivity].
  destruct (np_setitem points (Z.of_nat a) p) as [points1 | e]; simpl;
    [ | reflexivity].
  destruct (Nat.eq_dec j a) as [-> | Hne];
    [rewrite Hp in Hbad; discriminate Hbad | ].
  apply (IH (S a) points1 j); [lia | exact Hbad].
Qed.

End Fill.


Lemma face2dymax_unfold lm K faceIdx push atomic :
  face2dymax lm K faceIdx push atomic =
    (points <- for_each (fill_step (ring_point lm K faceIdx push atomic))
                        (map Z.of_nat (seq 0 (ring_turns atomic)))
                        (repeat (0, 0) (S (ring_turns atomic))) ;;
     first <- np_getitem points 0 ;;
     points <- np_setitem points (-1) first ;;
     Ok points).
Proof. destruct atomic; reflexivity. Qed.

(** With a NaN [push] the first point of the ring is not computed: the
    point has a NaN coordinate, which [fullerTriangle] does not classify. *)
Lemma ring_point_nan_push lm K faceIdx atomic jdx :
  is_ok (ring_point lm K faceIdx nan atomic jdx) = false.
Proof.
  unfold ring_point, ring_XYZ.
  match goal with
  | |- context [bind ?m (fun XYZ => bind (np_getitem (XYZcenters K) faceIdx) _)] =>
      destruct m as [XYZ | e]; cbn [bind]; [ | reflexivity]
  end.
  destruct (np_getitem (XYZcenters K) faceIdx) as [center | e]; cbn [bind];
    [ | reflexivity].
  unfold triangle_point.
  destruct (fullerTriangle_nan_in K
              (vadd (vscale XYZ nan) (vscale center (1 - nan)))) as [-> | ->];
    [apply nan_in_vadd_l, vscale_nan | reflexivity | reflexivity].
Qed.

Lemma face2dymax_nan_push lm K faceIdx atomic :
  is_ok (face2dymax lm K faceIdx nan atomic) = false.
Proof.
  rewrite face2dymax_unfold.
  pose proof (fill_loop_raises _ (ring_point lm K faceIdx nan atomic)
                (ring_turns atomic) 0 (repeat (0, 0) (S (ring_turns atomic))) 0%nat)
    as H.
  destruct (for_each _ _ _) as [points | e]; simpl; [ | reflexivity].
  assert (Hbad : true = false); [ | discriminate Hbad].
  apply H; [destruct atomic; simpl; lia | apply ring_point_nan_push].
Qed.





(** On the sample icosahedron every face returns a closed ring of 4 and of
    7 rows, for each of the sample push fractions from 0 to 1. *)
Example face2dymax_sample_rings :
  forallb (fun atomic : bool =>
    forallb (fun push =>
      forallb (fun faceIdx =>
        closed_ring (if atomic then 7%nat else 4%nat)
          (face2dymax Sample.libm Sample.constants faceIdx push atomic))
        (range 20))
      sample_pushes)
    [false; true] = true.
Proof. vm_compute. reflexivity. Qed.

(** ** The model at work on the sample instance

    The values of the docstrings that do not depend on the geometry tables
    are met up to the accuracy of the polynomial C library. *)

Example rotate3d_docstring :
  match rotate3d Sample.libm 0 (math_pi / 4) (0.3, 0.5, 0.4) true with
  | Ok (x, y, z) =>
      (x =? 0.3) && Sample.close y 0.6363961030678928
      && Sample.close z (-0.07071067811865467)
  | Raise _ => false
  end = true.
Proof. vm_compute. reflexivity. Qed.

Example rotate2d_docstring :
  match rotate2d Sample.libm 90 0.5 1 with
  | Ok (x, y) => Sample.close x (-1) && Sample.close y 0.5000000000000001
  | Raise _ => false
  end = true.
Proof. vm_compute. reflexivity. Qed.

Example cartesian2spherical_docstring :
  match cartesian2spherical Sample.libm (0.131, -0.84, 0.525) with
  | Ok (theta, phi) =>
      Sample.close theta (-1.4160901241763815) && Sample.close phi 1.0180812136981134
  | Raise _ => false
  end = true.
Proof. vm_compute. reflexivity. Qed.

Example spherical2cartesian_docstring :
  match spherical2cartesian Sample.libm (math_pi / 2) math_pi with
  | Ok (x, y, z) => Sample.close x (-1) && Sample.close y 0 && Sample.close z 0
  | Raise _ => false
  end = true.
Proof. vm_compute. reflexivity. Qed.

(** The entry point runs through on the sample icosahedron, and a domain
    error of [math.cos] surfaces as the [ValueError] it is in Python. *)
Example lonlat2dymax_sample :
  is_ok (fst (lonlat2dymax Sample.libm Sample.constants empty_cache
                [PyFloat (-77.0367); PyFloat 38.8951] [])) = true
  /\ fst (lonlat2dymax Sample.libm Sample.constants empty_cache
            [PyFloat infinity; PyFloat 0] []) = Raise ValueError
  /\ fst (lonlat2dymax Sample.libm Sample.constants empty_cache
            [PyFloat nan; PyFloat 0] []) = Raise UnboundLocalError
  /\ fst (lonlat2dymax Sample.libm Sample.constants empty_cache
            [PyFloat 1] []) = Raise TypeError.
Proof. repeat split; vm_compute; reflexivity. Qed.

Example vert2dymax_sample :
  is_ok (vert2dymax Sample.libm Sample.constants 5 (0, 5, 1)%Z) = true.
Proof. vm_compute. reflexivity. Qed.

Example dymax_centers_sample :
  is_ok (dymax_centers Sample.libm Sample.constants) = true.
Proof. vm_compute. reflexivity. Qed.

(** * Further properties of the code *)

(** ** Equality of cache keys *)

Lemma eqb_true_key a b :
  (a =? b) = true ->
  sf_number (Prim2SF a) /\ sf_number (Prim2SF b) /\ sf_eq (Prim2SF a) (Prim2SF b).
Proof.
  rewrite eqb_spec. unfold SFeqb. intros H.
  assert (Hn : sf_number (Prim2SF a) /\ sf_number (Prim2SF b)).
  { destruct (Prim2SF a), (Prim2SF b); simpl in *; auto; discriminate. }
  destruct Hn as [Ha Hb]. pose proof (SFcompare_key _ _ Ha Hb) as Hk.
  destruct (SFcompare _ _) as [[ | | ]|]; try discriminate H. auto.
Qed.

Lemma key_eqb_true a b :
  sf_number (Prim2SF a) -> sf_number (Prim2SF b) ->
  sf_eq (Prim2SF a) (Prim2SF b) -> (a =? b) = true.
Proof.
  intros Ha Hb H. pose proof (SFcompare_key _ _ Ha Hb) as Hk.
  rewrite eqb_spec. unfold SFeqb.
  destruct (SFcompare _ _) as [[ | | ]|]; try reflexivity; try contradiction;
    unfold sf_lt, sf_eq in *; lia.
Qed.

(** Equal floats compare alike with any third one. *)
Lemma eqb_compat a b k : (a =? b) = true -> (k =? a) = (k =? b).
Proof.
  intros H. apply eqb_true_key in H as (Ha & Hb & Hab).
  destruct (k =? a) eqn:E1.
  - apply eqb_true_key in E1 as (Hk & _ & Hka). symmetry.
    apply key_eqb_true; auto. unfold sf_eq in *. intuition congruence.
  - destruct (k =? b) eqn:E2; [ | reflexivity].
    apply eqb_true_key in E2 as (Hk & _ & Hkb).
    rewrite <- E1. apply key_eqb_true; auto.
    unfold sf_eq in *. intuition congruence.
Qed.

Lemma eqb_self a b : (a =? b) = true -> (a =? a) = true.
Proof.
  intros H. apply eqb_true_key in H as (Ha & _ & _).
  apply key_eqb_true; auto. unfold sf_eq. auto.
Qed.

Lemma args_eqb_compat a : forall b k,
  args_eqb a b = true -> args_eqb k a = args_eqb k b.
Proof.
  induction a as [ | u a IH]; intros [ | v b] k H; simpl in H; try discriminate H.
  - reflexivity.
  - apply andb_true_iff in H as [Huv Hab].
    destruct k as [ | w k]; simpl; [reflexivity | ].
    unfold pyval_eqb in *. rewrite (eqb_compat _ _ _ Huv), (IH b k Hab).
    reflexivity.
Qed.

Lemma args_eqb_self a : forall b, args_eqb a b = true -> args_eqb a a = true.
Proof.
  induction a as [ | u a IH]; intros [ | v b] H; simpl in H; try discriminate H.
  - reflexivity.
  - apply andb_true_iff in H as [Huv Hab]. simpl.
    unfold pyval_eqb in *. rewrite (eqb_self _ _ Huv), (IH b Hab). reflexivity.
Qed.

Lemma cache_get_compat V (cache : cache_t V) a b :
  args_eqb a b = true -> cache_get V cache a = cache_get V cache b.
Proof.
  intros H. induction cache as [ | [key r] rest IH]; simpl; [reflexivity | ].
  rewrite (args_eqb_compat a b key H), IH. reflexivity.
Qed.

(** ** The memo cache, further *)

(** X1.  The cache only grows: an entry that a call finds in the cache
    before some other call is still found, with the same value, after it;
    nothing is overwritten or evicted. *)
Theorem cached_keeps_entries V function cache args kwargs key r :
  cache_get V cache key = Some r ->
  cache_get V (snd (cached (V := V) function cache args kwargs)) key = Some r.
Proof.
  intros Hkey. unfold cached, wrapper.
  destruct (cache_get V cache args) as [r0 | ] eqn:Hargs; simpl; [exact Hkey | ].
  destruct (function args kwargs) as [r1 | e]; simpl; [ | exact Hkey].
  destruct (args_eqb args key) eqn:E; [ | exact Hkey].
  rewrite (cache_get_compat V cache args key E), Hkey in Hargs.
  discriminate Hargs.
Qed.

(** X1, on the sample instance: the entry of one point survives the call
    for another. *)
Lemma cached_keeps_entries_witness :
  exists r,
    cache_get dymax_xy
      (snd (lonlat2dymax Sample.libm Sample.constants
              (snd (lonlat2dymax Sample.libm Sample.constants empty_cache
                      [PyFloat 10; PyFloat 20] []))
              [PyFloat 30; PyFloat 40] []))
      [PyFloat 10; PyFloat 20] = Some r.
Proof.
  destruct (cache_get dymax_xy
              (snd (lonlat2dymax Sample.libm Sample.constants empty_cache
                      [PyFloat 10; PyFloat 20] []))
              [PyFloat 10; PyFloat 20]) as [r | ] eqn:E.
  - exists r.
    exact (cached_keeps_entries dymax_xy
             (lonlat2dymax_undecorated Sample.libm Sample.constants)
             _ [PyFloat 30; PyFloat 40] [] _ r E).
  - exfalso. vm_compute in E. discriminate E.
Defined.

(** X2.  Argument tuples that are equal as Python values share one entry:
    after a call has returned [r], a call whose positional arguments are
    pairwise [==] to the first ones (as 0.0 and -0.0, or True and 1.0)
    returns [r] from the cache, whatever its keyword arguments and without
    consulting the function, and leaves the cache as it is. *)
Theorem cached_equal_keys_share_entry V function g cache a b kwargs kwargs' r cache1 :
  args_eqb a b = true ->
  cached (V := V) function cache a kwargs = (Ok r, cache1) ->
  cached (V := V) g cache1 b kwargs' = (Ok r, cache1).
Proof.
  intros Hab H.
  apply wrapper_hit.
  rewrite <- (cache_get_compat V cache1 a b Hab).
  apply (wrapper_stores V function cache a kwargs r cache1);
    [exact (args_eqb_self a b Hab) | exact H].
Qed.

(** X2, on the sample instance: longitude 0.0, then -0.0. *)
Lemma cached_equal_keys_share_entry_witness :
  exists r cache1,
    lonlat2dymax Sample.libm Sample.constants empty_cache
      [PyFloat 0; PyFloat 45] [] = (Ok r, cache1)
    /\ lonlat2dymax Sample.libm Sample.constants cache1
         [PyFloat (-0); PyFloat 45] [] = (Ok r, cache1).
Proof.
  destruct (lonlat2dymax Sample.libm Sample.constants empty_cache
              [PyFloat 0; PyFloat 45] []) as [[r | e] cache1] eqn:E.
  - exists r, cache1. split; [reflexivity | ].
    apply (cached_equal_keys_share_entry dymax_xy
             (lonlat2dymax_undecorated Sample.libm Sample.constants)
             (lonlat2dymax_undecorated Sample.libm Sample.constants)
             empty_cache [PyFloat 0; PyFloat 45] [PyFloat (-0); PyFloat 45] [] [] r cache1).
    + vm_compute. reflexivity.
    + exact E.
  - exfalso. vm_compute in E. discriminate E.
Defined.

(** ** Infinite and non-NaN coordinates *)

Lemma SFsub_number_l prec emax x y :
  sf_number x -> sf_finite y -> sf_number (SFsub prec emax x y).
Proof.
  destruct x as [sx|sx| |sx mx ex], y as [sy|sy| |sy my ey];
    simpl; try tauto; intros _ _.
  - destruct sx, sy; exact I.
  - apply binary_normalize_number.
Qed.

Lemma SFsub_number_r prec emax x y :
  sf_finite x -> sf_number y -> sf_number (SFsub prec emax x y).
Proof.
  destruct x as [sx|sx| |sx mx ex], y as [sy|sy| |sy my ey];
    simpl; try tauto; intros _ _.
  - destruct sx, sy; exact I.
  - apply binary_normalize_number.
Qed.

Lemma SFsub_inf_l prec emax x y :
  sf_inf x -> sf_finite y -> sf_inf (SFsub prec emax x y).
Proof. destruct x, y; simpl; tauto. Qed.

Lemma SFsub_inf_r prec emax x y :
  sf_finite x -> sf_inf y -> sf_inf (SFsub prec emax x y).
Proof. destruct x, y; simpl; tauto. Qed.

Lemma SFmul_inf_square prec emax x :
  sf_inf x -> SFmul prec emax x x = S754_infinity false.
Proof. destruct x as [ |[|]| | ]; simpl; tauto. Qed.

Lemma SFadd_pinf_l prec emax y :
  sf_nonneg y -> SFadd prec emax (S754_infinity false) y = S754_infinity false.
Proof. destruct y as [[|]|[|]| |[|] m e]; simpl; tauto. Qed.

Lemma SFadd_pinf_r prec emax x :
  sf_nonneg x -> SFadd prec emax x (S754_infinity false) = S754_infinity false.
Proof. destruct x as [[|]|[|]| |[|] m e]; simpl; tauto. Qed.

Lemma is_infinity_sf_inf x : is_infinity x = true -> sf_inf (Prim2SF x).
Proof.
  unfold is_infinity. rewrite eqb_spec, abs_spec.
  destruct (Prim2SF x); simpl; auto; intros H; vm_compute in H; discriminate H.
Qed.

Lemma sf_inf_number x : sf_inf x -> sf_number x.
Proof. destruct x; simpl; tauto. Qed.

(** The norm of a vector of numbers, one of them infinite, is [+inf]. *)
Lemma norm_of_inf x y z :
  sf_number (Prim2SF x) -> sf_number (Prim2SF y) -> sf_number (Prim2SF z) ->
  sf_inf (Prim2SF x) \/ sf_inf (Prim2SF y) \/ sf_inf (Prim2SF z) ->
  sqrt (np_dot (x, y, z) (x, y, z)) = infinity.
Proof.
  intros Hx Hy Hz Hinf. apply Prim2SF_inj.
  unfold np_dot. rewrite sqrt_spec, !add_spec, !mul_spec.
  unfold SF64sqrt, SF64add, SF64mul.
  pose proof (SFmul_square_nonneg prec emax _ Hx) as Nx.
  pose proof (SFmul_square_nonneg prec emax _ Hy) as Ny.
  pose proof (SFmul_square_nonneg prec emax _ Hz) as Nz.
  destruct Hinf as [H | [H | H]].
  - rewrite (SFmul_inf_square _ _ _ H).
    rewrite (SFadd_pinf_l _ _ _ Ny), (SFadd_pinf_l _ _ _ Nz). reflexivity.
  - rewrite (SFmul_inf_square _ _ _ H).
    rewrite (SFadd_pinf_r _ _ _ Nx), (SFadd_pinf_l _ _ _ Nz). reflexivity.
  - rewrite (SFmul_inf_square _ _ _ H).
    rewrite SFadd_pinf_r; [reflexivity | apply SFadd_nonneg; assumption].
Qed.

Lemma number3_components x y z :
  number3 (x, y, z) = true ->
  sf_number (Prim2SF x) /\ sf_number (Prim2SF y) /\ sf_number (Prim2SF z).
Proof.
  unfold number3. rewrite !andb_true_iff, !negb_true_iff.
  intros [[Hx Hy] Hz]. repeat split; apply is_nan_false_number; assumption.
Qed.

Lemma has_inf_components x y z :
  has_inf (x, y, z) = true ->
  sf_inf (Prim2SF x) \/ sf_inf (Prim2SF y) \/ sf_inf (Prim2SF z).
Proof.
  unfold has_inf. rewrite !orb_true_iff.
  intros [[H | H] | H]; apply is_infinity_sf_inf in H; auto.
Qed.

Lemma finite3_sf x y z :
  finite3 (x, y, z) = true ->
  sf_finite (Prim2SF x) /\ sf_finite (Prim2SF y) /\ sf_finite (Prim2SF z).
Proof.
  intros H. apply finite3_components in H as (Hx & Hy & Hz).
  repeat split; apply is_finite_sf_finite; assumption.
Qed.

(** Distances between a point without NaN and a finite point. *)
Lemma distance_number_l a b :
  number3 a = true -> finite3 b = true -> is_nan (distance a b) = false.
Proof.
  destruct a as [[a0 a1] a2], b as [[b0 b1] b2]. intros Ha Hb.
  apply number3_components in Ha. apply finite3_sf in Hb.
  unfold distance, np_linalg_norm, vsub.
  apply norm_of_numbers; rewrite sub_spec; apply SFsub_number_l; tauto.
Qed.

Lemma distance_inf_l a b :
  number3 a = true -> has_inf a = true -> finite3 b = true ->
  distance a b = infinity.
Proof.
  destruct a as [[a0 a1] a2], b as [[b0 b1] b2]. intros Ha Hi Hb.
  apply number3_components in Ha. apply has_inf_components in Hi.
  apply finite3_sf in Hb.
  unfold distance, np_linalg_norm, vsub.
  apply norm_of_inf; rewrite ?sub_spec; try (apply SFsub_number_l; tauto).
  destruct Hi as [H | [H | H]];
    [left | right; left | right; right]; apply SFsub_inf_l; tauto.
Qed.

Lemma magnitude_vsub_inf_r c XYZ :
  finite3 c = true -> number3 XYZ = true -> has_inf XYZ = true ->
  magnitude (vsub c XYZ) = infinity.
Proof.
  destruct c as [[c0 c1] c2], XYZ as [[x y] z]. intros Hc Ha Hi.
  apply number3_components in Ha. apply has_inf_components in Hi.
  apply finite3_sf in Hc.
  unfold magnitude, vsub.
  apply norm_of_inf; rewrite ?sub_spec; try (apply SFsub_number_r; tauto).
  destruct Hi as [H | [H | H]];
    [left | right; left | right; right]; apply SFsub_inf_r; tauto.
Qed.

Lemma number3_false_nan_in v : number3 v = false -> nan_in v.
Proof.
  destruct v as [[x y] z]. unfold number3, nan_in.
  rewrite !andb_false_iff, !negb_false_iff.
  intros [[H | H] | H]; apply is_nan_true in H; auto.
Qed.

(** ** [fullerTriangle], further *)

(** The loop ends on its start index or on one it visited, whatever the
    tables hold. *)
Lemma closest_loop_index K XYZ idxs :
  forall st t d,
    for_each (closest_step K XYZ) idxs st = Ok (t, d) ->
    t = fst st \/ In t idxs.
Proof.
  induction idxs as [ | i idxs IH]; intros [t0 d0] t d H; simpl in H.
  - injection H as <- <-. now left.
  - destruct (np_getitem (XYZcenters K) i) as [c | e]; simpl in H;
      [ | discriminate H].
    destruct (magnitude (vsub c XYZ) <? d0); simpl in H;
      apply IH in H; simpl in *; intuition.
Qed.

Lemma lcd_of_distances_range d1 d2 d3 lcd :
  lcd_of_distances d1 d2 d3 = Ok lcd -> (0 <= lcd <= 5)%Z.
Proof.
  unfold lcd_of_distances.
  repeat (match goal with |- context [if ?b then _ else _] => destruct b end;
          try (intros H; injection H as <-; lia)).
  discriminate.
Qed.

Lemma fullerTriangle_range K XYZ tri lcd :
  fullerTriangle K XYZ = Ok (tri, lcd) ->
  (0 <= lcd <= 5)%Z /\ (tri = (-1)%Z \/ (0 <= tri < facecount K)%Z).
Proof.
  unfold fullerTriangle, closest_face. intros H.
  destruct (for_each (closest_step K XYZ) (range (facecount K)) ((-1)%Z, infinity))
    as [[t d] | e] eqn:Hloop; simpl in H; [ | discriminate H].
  destruct (np_getitem (vert_indices K) t) as [[[v1 v2] v3] | e]; simpl in H;
    [ | discriminate H].
  destruct (np_getitem (vertices K) v1) as [p1 | e]; simpl in H; [ | discriminate H].
  destruct (np_getitem (vertices K) v2) as [p2 | e]; simpl in H; [ | discriminate H].
  destruct (np_getitem (vertices K) v3) as [p3 | e]; simpl in H; [ | discriminate H].
  destruct (lcd_of_distances _ _ _) as [l | e] eqn:Hl; simpl in H; [ | discriminate H].
  injection H as <- <-.
  split; [exact (lcd_of_distances_range _ _ _ _ Hl) | ].
  apply closest_loop_index in Hloop as [Ht | Ht]; [now left | right].
  apply in_range in Ht. exact Ht.
Qed.

(** X3.  Whatever the point and the tables, a pair that [fullerTriangle]
    returns has an lcd index among 0..5 and a face index that is either a
    valid one, 0 <= tri < facecount, or the start value -1 of the loop;
    it never returns anything else. *)
Theorem fullerTriangle_result_range K XYZ tri lcd :
  fullerTriangle K XYZ = Ok (tri, lcd) ->
  (0 <= lcd <= 5)%Z /\ (tri = (-1)%Z \/ (0 <= tri < facecount K)%Z).
Proof. exact (fullerTriangle_range K XYZ tri lcd). Qed.

(** X3, on the sample icosahedron. *)
Lemma fullerTriangle_result_range_witness :
  exists tri lcd,
    fullerTriangle Sample.constants (0.6, 0, 0.8) = Ok (tri, lcd)
    /\ (0 <= lcd <= 5)%Z.
Proof.
  destruct (fullerTriangle Sample.constants (0.6, 0, 0.8)) as [[tri lcd] | e] eqn:E.
  - exists tri, lcd. split; [reflexivity | ].
    exact (proj1 (fullerTriangle_result_range Sample.constants (0.6, 0, 0.8) tri lcd E)).
  - exfalso. vm_compute in E. discriminate E.
Defined.

(** The second half of [fullerTriangle] on a point without NaN. *)
Lemma fullerTriangle_returns_on_numbers K XYZ :
  geometry_ok K = true -> number3 XYZ = true ->
  is_ok (fullerTriangle K XYZ) = true.
Proof.
  intros HK HX.
  destruct (geometry_ok_facts K HK) as (Hfc & Hlc & Hlv & Hidx & Hvert & _).
  destruct (closest_face_total K XYZ HK) as (tri & Hloop & Htri).
  assert (Hrow : exists row, np_getitem (vert_indices K) tri = Ok row
                             /\ In row (vert_indices K)).
  { destruct (Z.eq_dec tri (-1)) as [-> | Hne].
    - apply np_getitem_last. intros E. rewrite E in Hlv. simpl in Hlv. lia.
    - apply np_getitem_in_range. lia. }
  destruct Hrow as ([[v1 v2] v3] & Hrow & Hin).
  destruct (Hidx _ _ _ Hin) as (R1 & R2 & R3).
  destruct (np_getitem_in_range (vertices K) v1 R1) as (p1 & E1 & I1).
  destruct (np_getitem_in_range (vertices K) v2 R2) as (p2 & E2 & I2).
  destruct (np_getitem_in_range (vertices K) v3 R3) as (p3 & E3 & I3).
  unfold fullerTriangle. rewrite Hloop. simpl.
  rewrite Hrow. simpl. rewrite E1. simpl. rewrite E2. simpl. rewrite E3. simpl.
  assert (Hl : is_ok (lcd_of_distances (distance XYZ p1) (distance XYZ p2)
                                       (distance XYZ p3)) = true).
  { apply lcd_of_distances_returns.
    repeat split; apply distance_number_l; auto. }
  destruct (lcd_of_distances _ _ _); [reflexivity | discriminate Hl].
Qed.

(** X4.  With well-formed tables [fullerTriangle] returns a pair exactly
    when no coordinate of the point is a NaN: infinite and arbitrarily large
    coordinates are classified, a NaN raises. *)
Theorem fullerTriangle_returns_iff_no_nan K XYZ :
  geometry_ok K = true ->
  (is_ok (fullerTriangle K XYZ) = true <-> number3 XYZ = true).
Proof.
  intros HK. split.
  - intros Hok. destruct (number3 XYZ) eqn:E; [reflexivity | ].
    apply number3_false_nan_in in E.
    destruct (fullerTriangle_nan_in K XYZ E) as [H | H];
      rewrite H in Hok; discriminate Hok.
  - apply fullerTriangle_returns_on_numbers, HK.
Qed.

(** X4, on the sample icosahedron, far off the unit sphere. *)
Lemma fullerTriangle_returns_iff_no_nan_witness :
  is_ok (fullerTriangle Sample.constants (1e300, -5, 0)) = true.
Proof.
  apply (fullerTriangle_returns_iff_no_nan Sample.constants (1e300, -5, 0)).
  - vm_compute. reflexivity.
  - vm_compute. reflexivity.
Defined.

(** X5.  On a point with an infinite coordinate (and no NaN) every
    computed distance is [+inf]: no face center is ever closer than the
    initial [np.inf], [h_tri] keeps its start value, and with three equal
    vertex distances the first branch of the chain is taken.  With
    well-formed tables [fullerTriangle] returns [(-1, 0)]. *)
Theorem fullerTriangle_infinite_point K XYZ :
  geometry_ok K = true -> number3 XYZ = true -> has_inf XYZ = true ->
  fullerTriangle K XYZ = Ok ((-1)%Z, 0%Z).
Proof.
  intros HK HX Hinf.
  destruct (geometry_ok_facts K HK) as (Hfc & Hlc & Hlv & Hidx & Hvert & Hcen).
  unfold fullerTriangle, closest_face.
  rewrite closest_loop_keep.
  - simpl.
    destruct (np_getitem_last (vert_indices K)) as ([[v1 v2] v3] & Hrow & Hin).
    { intros E. rewrite E in Hlv. simpl in Hlv. lia. }
    destruct (Hidx _ _ _ Hin) as (R1 & R2 & R3).
    destruct (np_getitem_in_range (vertices K) v1 R1) as (p1 & E1 & I1).
    destruct (np_getitem_in_range (vertices K) v2 R2) as (p2 & E2 & I2).
    destruct (np_getitem_in_range (vertices K) v3 R3) as (p3 & E3 & I3).
    rewrite Hrow. simpl. rewrite E1. simpl. rewrite E2. simpl. rewrite E3. simpl.
    rewrite !distance_inf_l by auto. reflexivity.
  - intros i Hi. apply in_range in Hi.
    destruct (np_getitem_in_range (XYZcenters K) i) as (c & Hc & Hin); [lia | ].
    exists c. split; [exact Hc | ]. simpl.
    rewrite magnitude_vsub_inf_r by auto. reflexivity.
Qed.

(** X5, on the sample icosahedron. *)
Lemma fullerTriangle_infinite_point_witness :
  fullerTriangle Sample.constants (infinity, 0, 1) = Ok ((-1)%Z, 0%Z).
Proof.
  apply (fullerTriangle_infinite_point Sample.constants (infinity, 0, 1));
    vm_compute; reflexivity.
Defined.

(** ** [magnitude] and [distance], further *)

Lemma sqrt_not_negative x : (sqrt x <? 0) = false.
Proof.
  rewrite ltb_spec, sqrt_spec. change (Prim2SF 0) with (S754_zero false).
  unfold SF64sqrt.
  destruct (Prim2SF x) as [s|[|]| |[|] m e]; try reflexivity.
  pose proof (SFsqrt_nonneg prec emax (S754_finite false m e) I) as H.
  destruct (SFsqrt prec emax (S754_finite false m e)) as [[|]|[|]| |[|] ? ?];
    simpl in H; try contradiction; reflexivity.
Qed.

(** X6.  [magnitude] and [distance] are never negative; between two finite
    points the distance is a number (zero, positive or [+inf] on overflow,
    never NaN), and the distance of a finite point to itself is exactly
    zero. *)
Theorem distance_never_negative a b :
  (magnitude a <? 0) = false
  /\ (distance a b <? 0) = false
  /\ (finite3 a = true -> finite3 b = true -> is_nan (distance a b) = false)
  /\ (finite3 a = true -> distance a a = 0).
Proof.
  split; [apply sqrt_not_negative | ].
  split; [apply sqrt_not_negative | ].
  split; [apply distance_number | ].
  intros Ha. exact (magnitude_vsub_diag a Ha).
Qed.



Lemma SFopp_involutive x : SFopp (SFopp x) = x.
Proof. destruct x; simpl; rewrite ?negb_involutive; reflexivity. Qed.






(** ** Index bounds *)

Lemma np_getitem_out_of_range {A : Type} (l : list A) (i : Z) :
  (i < - Z.of_nat (length l) \/ Z.of_nat (length l) <= i)%Z ->
  np_getitem l i = Raise IndexError.
Proof.
  intros H. unfold np_getitem.
  destruct (Z.ltb_spec i 0) as [Hneg | Hpos].
  - destruct (Z.leb_spec 0 (i + Z.of_nat (length l))) as [? | _];
      [lia | reflexivity].
  - destruct (Z.ltb_spec i (Z.of_nat (length l))) as [? | _]; [lia | ].
    rewrite andb_false_r. reflexivity.
Qed.

Lemma np_getitem_wrap {A : Type} (l : list A) (i : Z) :
  (- Z.of_nat (length l) <= i < 0)%Z ->
  np_getitem l i = np_getitem l (i + Z.of_nat (length l)).
Proof.
  intros H. unfold np_getitem.
  destruct (Z.ltb_spec i 0); [ | lia].
  destruct (Z.ltb_spec (i + Z.of_nat (length l)) 0); [lia | ]. reflexivity.
Qed.

Lemma for_each_ext {A S : Type} (f g : S -> A -> result S) xs :
  (forall acc x, f acc x = g acc x) ->
  forall acc, for_each f xs acc = for_each g xs acc.
Proof.
  intros H. induction xs as [ | x xs IH]; intros acc; simpl; [reflexivity | ].
  rewrite H. destruct (g acc x); simpl; auto.
Qed.

Lemma bind_assoc {A B C : Type} (m : result A) (f : A -> result B) (g : B -> result C) :
  bind (bind m f) g = bind m (fun a => bind (f a) g).
Proof. destruct m; reflexivity. Qed.

(** ** [rotate3d], further *)

Lemma opp_involutive x : - (- x) = x.
Proof.
  apply Prim2SF_inj. rewrite !opp_spec. apply SFopp_involutive.
Qed.

(** X8.  [reverse] only negates the angle: a call with [reverse=False] is
    the call with [reverse=True] (the default) on the opposite angle, and
    the other way round.  An axis other than 0, 1, 2 matches no branch: the
    vector is returned as it was and nothing is raised, whatever the
    angle. *)
Theorem rotate3d_reverse_negates lm axis alpha XYZ reverse :
  rotate3d lm axis alpha XYZ false = rotate3d lm axis (- alpha) XYZ true
  /\ rotate3d lm axis alpha XYZ true = rotate3d lm axis (- alpha) XYZ false
  /\ ((axis < 0 \/ 2 < axis)%Z -> rotate3d lm axis alpha XYZ reverse = Ok XYZ).
Proof.
  split; [ | split].
  - unfold rotate3d. rewrite opp_involutive. reflexivity.
  - reflexivity.
  - intros H. unfold rotate3d. destruct XYZ as [[X0 X1] X2].
    destruct (Z.eqb_spec axis 0); [lia | ].
    destruct (Z.eqb_spec axis 1); [lia | ].
    destruct (Z.eqb_spec axis 2); [lia | reflexivity].
Qed.

(** ** [dymax_point], further *)

Lemma dymax_point_unfold lm K tri lcd XYZ :
  dymax_point lm K tri lcd XYZ =
    ('(x, y) <- dymax_rescaled lm K tri XYZ ;;
     placement <- dymax_placement K tri lcd ;;
     spec_rotate_translate lm placement x y).
Proof.
  unfold dymax_point.
  destruct (dymax_rescaled lm K tri XYZ) as [[x y] | e]; simpl; [ | reflexivity].
  destruct (dymax_placement K tri lcd) as [[[xt yt] rot] | e]; simpl; [ | reflexivity].
  unfold rotate2d.
  destruct (math_cos lm (math_radians rot)) as [c | e]; simpl; [ | reflexivity].
  destruct (math_sin lm (math_radians rot)) as [s | e]; reflexivity.
Qed.

(** X9.  The lcd index reaches the result of [dymax_point] only through
    the two tests [lcd < 4] on face 8 and [lcd < 3] on face 15: on every
    other face the planar point is the same for every lcd, and on faces 8
    and 15 it is the same for two lcd on the same side of the threshold. *)
Theorem dymax_point_lcd_only_on_8_and_15 lm K tri lcd lcd' XYZ :
  (tri <> 8%Z -> tri <> 15%Z ->
   dymax_point lm K tri lcd XYZ = dymax_point lm K tri lcd' XYZ)
  /\ ((lcd <? 4)%Z = (lcd' <? 4)%Z ->
      dymax_point lm K 8 lcd XYZ = dymax_point lm K 8 lcd' XYZ)
  /\ ((lcd <? 3)%Z = (lcd' <? 3)%Z ->
      dymax_point lm K 15 lcd XYZ = dymax_point lm K 15 lcd' XYZ).
Proof.
  split; [ | split].
  - intros H8 H15. rewrite !dymax_point_unfold. unfold dymax_placement.
    destruct (Z.eqb_spec tri 8); [contradiction | ].
    destruct (Z.eqb_spec tri 15); [contradiction | ]. reflexivity.
  - intros H. rewrite !dymax_point_unfold. unfold dymax_placement.
    simpl. rewrite H. reflexivity.
  - intros H. rewrite !dymax_point_unfold. unfold dymax_placement.
    simpl. rewrite H. reflexivity.
Qed.

(** X10.  A face index that fits a machine word (a C long of 64 bits, the
    indices numpy converts without an [OverflowError]) and lies outside the
    rows of [vert_indices] (counting the negative indices that wrap around)
    makes [dymax_point] raise [IndexError] at its first table lookup, before
    any arithmetic. *)
Theorem dymax_point_face_out_of_range lm K tri lcd XYZ :
  (- 2 ^ 63 <= tri < 2 ^ 63)%Z ->
  (tri < - Z.of_nat (length (vert_indices K))
   \/ Z.of_nat (length (vert_indices K)) <= tri)%Z ->
  dymax_point lm K tri lcd XYZ = Raise IndexError.
Proof.
  intros _ H. unfold dymax_point, dymax_rescaled.
  rewrite (np_getitem_out_of_range (vert_indices K) tri H). reflexivity.
Qed.

(** X10, on the sample icosahedron: there is no face 20. *)
Lemma dymax_point_face_out_of_range_witness :
  dymax_point Sample.libm Sample.constants 20 0 (0, 0, 1) = Raise IndexError.
Proof.
  apply dymax_point_face_out_of_range; [lia | ].
  right. vm_compute. discriminate.
Defined.

Lemma dymax_rescaled_wrap lm K tri XYZ :
  length (XYZcenters K) = length (vert_indices K) ->
  (- Z.of_nat (length (vert_indices K)) <= tri < 0)%Z ->
  dymax_rescaled lm K tri XYZ
  = dymax_rescaled lm K (tri + Z.of_nat (length (vert_indices K))) XYZ.
Proof.
  intros Hlen H. unfold dymax_rescaled.
  rewrite (np_getitem_wrap (vert_indices K) tri H).
  rewrite (np_getitem_wrap (XYZcenters K) tri) by (rewrite Hlen; exact H).
  rewrite Hlen. reflexivity.
Qed.

(** X11.  A negative face index is read from the end of the tables, as
    numpy does, but is compared as it is with 8 and 15: with [n] rows in
    each table, [dymax_point(tri, lcd, XYZ)] for -n <= tri < 0 unfolds the
    point with the geometry of face [tri + n] and places it with the table
    entry of that face, never with a special placement, whatever lcd is. *)
Theorem dymax_point_negative_face lm K tri lcd XYZ :
  length (XYZcenters K) = length (vert_indices K) ->
  length (dymax_translate K) = length (vert_indices K) ->
  (- Z.of_nat (length (vert_indices K)) <= tri < 0)%Z ->
  dymax_point lm K tri lcd XYZ =
    ('(x, y) <- dymax_rescaled lm K (tri + Z.of_nat (length (vert_indices K))) XYZ ;;
     placement <- np_getitem (dymax_translate K)
                             (tri + Z.of_nat (length (vert_indices K))) ;;
     spec_rotate_translate lm placement x y).
Proof.
  intros Hc Ht H. rewrite dymax_point_unfold.
  rewrite (dymax_rescaled_wrap lm K tri XYZ Hc H).
  unfold dymax_placement.
  destruct (Z.eqb_spec tri 8); [lia | ].
  destruct (Z.eqb_spec tri 15); [lia | ]. simpl.
  rewrite (np_getitem_wrap (dymax_translate K) tri) by (rewrite Ht; exact H).
  rewrite Ht. reflexivity.
Qed.

(** X11, on the sample icosahedron: face -12 is face 8 with the placement
    of the table, where face 8 itself takes the special one for lcd 0. *)
Lemma dymax_point_negative_face_witness :
  dymax_point Sample.libm Sample.constants (-12) 0 (0, 0, -1) =
    ('(x, y) <- dymax_rescaled Sample.libm Sample.constants 8 (0, 0, -1) ;;
     spec_rotate_translate Sample.libm (3.5, 0.875, 120) x y)
  /\ dymax_point Sample.libm Sample.constants 8 0 (0, 0, -1) =
       ('(x, y) <- dymax_rescaled Sample.libm Sample.constants 8 (0, 0, -1) ;;
        spec_rotate_translate Sample.libm (1.5, 0.5, 300) x y).
Proof.
  split.
  - rewrite (dymax_point_negative_face Sample.libm Sample.constants (-12) 0 (0, 0, -1));
      [reflexivity | reflexivity | reflexivity | ].
    change (- 20 <= -12 < 0)%Z. lia.
  - rewrite dymax_point_unfold. reflexivity.
Defined.

(** ** [face2dymax], further *)

Lemma ring_XYZ_wrap K faceIdx push atomic jdx :
  length (XYZcenters K) = length (vert_indices K) ->
  (- Z.of_nat (length (vert_indices K)) <= faceIdx < 0)%Z ->
  ring_XYZ K faceIdx push atomic jdx
  = ring_XYZ K (faceIdx + Z.of_nat (length (vert_indices K))) push atomic jdx.
Proof.
  intros Hlen H. unfold ring_XYZ, np_getitem2.
  rewrite (np_getitem_wrap (vert_indices K) faceIdx H).
  rewrite (np_getitem_wrap (XYZcenters K) faceIdx) by (rewrite Hlen; exact H).
  rewrite Hlen. reflexivity.
Qed.

(** X12.  A face index that fits a machine word (a C long of 64 bits) and
    lies outside the rows of [vert_indices] makes [face2dymax] raise
    [IndexError] at the first point of the ring, for every [push] and either
    setting of [atomic]. *)
Theorem face2dymax_face_out_of_range lm K faceIdx push atomic :
  (- 2 ^ 63 <= faceIdx < 2 ^ 63)%Z ->
  (faceIdx < - Z.of_nat (length (vert_indices K))
   \/ Z.of_nat (length (vert_indices K)) <= faceIdx)%Z ->
  face2dymax lm K faceIdx push atomic = Raise IndexError.
Proof.
  intros _ H. rewrite face2dymax_unfold.
  assert (Hpt : ring_point lm K faceIdx push atomic 0 = Raise IndexError).
  { unfold ring_point, ring_XYZ, np_getitem2.
    rewrite (np_getitem_out_of_range (vert_indices K) faceIdx H).
    destruct atomic; reflexivity. }
  destruct atomic; simpl; unfold fill_step at 1; rewrite Hpt; reflexivity.
Qed.

(** X12, on the sample icosahedron. *)
Lemma face2dymax_face_out_of_range_witness :
  face2dymax Sample.libm Sample.constants (-21) 0.75 true = Raise IndexError.
Proof.
  apply face2dymax_face_out_of_range; [lia | ].
  left. vm_compute. reflexivity.
Defined.

(** X13.  A negative face index counts from the last face: with as many
    centers as vertex triples, [face2dymax(faceIdx, ...)] for
    -n <= faceIdx < 0 is [face2dymax(faceIdx + n, ...)], ring and
    exceptions alike. *)
Theorem face2dymax_negative_face lm K faceIdx push atomic :
  length (XYZcenters K) = length (vert_indices K) ->
  (- Z.of_nat (length (vert_indices K)) <= faceIdx < 0)%Z ->
  face2dymax lm K faceIdx push atomic
  = face2dymax lm K (faceIdx + Z.of_nat (length (vert_indices K))) push atomic.
Proof.
  intros Hlen H. rewrite !face2dymax_unfold.
  rewrite (for_each_ext
             (fill_step (ring_point lm K faceIdx push atomic))
             (fill_step (ring_point lm K
                           (faceIdx + Z.of_nat (length (vert_indices K))) push atomic)));
    [reflexivity | ].
  intros points jdx. unfold fill_step, ring_point.
  rewrite (ring_XYZ_wrap K faceIdx push atomic jdx Hlen H). reflexivity.
Qed.

(** X13, on the sample icosahedron: face -1 is face 19. *)
Lemma face2dymax_negative_face_witness :
  face2dymax Sample.libm Sample.constants (-1) 0.5 false
  = face2dymax Sample.libm Sample.constants 19 0.5 false.
Proof.
  apply (face2dymax_negative_face Sample.libm Sample.constants (-1) 0.5 false).
  - reflexivity.
  - change (- 20 <= -1 < 0)%Z. lia.
Defined.

(** ** [dymax_centers] *)

Lemma dymax_centers_unfold lm K :
  dymax_centers lm K =
    for_each (fill_step (fun i => c <- np_getitem (XYZcenters K) i ;;
                                  triangle_point lm K c))
             (map Z.of_nat (seq 0 (Z.to_nat (facecount K))))
             (repeat (0, 0) (Z.to_nat (facecount K))).
Proof.
  unfold dymax_centers, range. apply for_each_ext.
  intros centers i. unfold fill_step. rewrite bind_assoc. reflexivity.
Qed.

(** X14.  When the module-level loop that fills [dymax_centers] completes,
    the table has one row per face, and with well-formed tables whose
    centers are pairwise apart row [i] is [dymax_point(i, lcd, center)] for
    the center of face [i] itself: every center is classified into its own
    face and placed with that face's geometry. *)
Theorem dymax_centers_own_faces lm K centers :
  geometry_ok K = true -> centers_apart K = true ->
  dymax_centers lm K = Ok centers ->
  length centers = Z.to_nat (facecount K)
  /\ forall i, (0 <= i < facecount K)%Z ->
       exists c lcd,
         np_getitem (XYZcenters K) i = Ok c
         /\ fullerTriangle K c = Ok (i, lcd)
         /\ dymax_point lm K i lcd c = Ok (nth (Z.to_nat i) centers (0, 0)).
Proof.
  intros HK Hapart H. rewrite dymax_centers_unfold in H.
  apply (fill_loop_result _ (0, 0)) in H; [ | rewrite repeat_length; lia].
  destruct H as (Hlen & Hin & _). rewrite repeat_length in Hlen.
  split; [exact Hlen | ].
  intros i Hi.
  destruct (closest_face_center K i HK Hapart Hi) as (c & Hget & Hc & _ & Hloop).
  destruct (fullerTriangle_after_loop K c i HK Hc Hloop)
    as (_ & _ & _ & _ & _ & _ & lcd & _ & _ & _ & _ & _ & _ & Hft); [lia | ].
  exists c, lcd. split; [exact Hget | ]. split; [exact Hft | ].
  specialize (Hin (Z.to_nat i) ltac:(lia)).
  rewrite Z2Nat.id in Hin by lia. rewrite Hget in Hin. simpl in Hin.
  unfold triangle_point in Hin. rewrite Hft in Hin. exact Hin.
Qed.

(** X14, on the sample icosahedron. *)
Lemma dymax_centers_own_faces_witness :
  exists centers,
    dymax_centers Sample.libm Sample.constants = Ok centers
    /\ length centers = 20%nat.
Proof.
  destruct (dymax_centers Sample.libm Sample.constants) as [centers | e] eqn:E.
  - exists centers. split; [reflexivity | ].
    apply (dymax_centers_own_faces Sample.libm Sample.constants centers).
    + vm_compute. reflexivity.
    + vm_compute. reflexivity.
    + exact E.
  - exfalso. vm_compute in E. discriminate E.
Defined.

(** ** [lonlat2dymax], further *)

(** X15.  The flag [getlcd] is only read for its truth value and only
    decides the shape of the result: the call with a true flag returns
    [(x, y, lcd)] exactly when the call with a false flag returns the same
    [(x, y)], the lcd is one of 0..5, and either both calls raise the same
    exception or neither raises. *)
Theorem lonlat2dymax_flag_only_adds_lcd lm K lng lat getlcd :
  lonlat2dymax_body lm K lng lat getlcd
  = lonlat2dymax_body lm K lng lat (PyBool (truthy getlcd))
  /\ (forall x y lcd,
        lonlat2dymax_body lm K lng lat (PyBool true) = Ok (XYLcd x y lcd) ->
        lonlat2dymax_body lm K lng lat (PyBool false) = Ok (XY x y)
        /\ (0 <= lcd <= 5)%Z)
  /\ (forall x y,
        lonlat2dymax_body lm K lng lat (PyBool false) = Ok (XY x y) ->
        exists lcd, lonlat2dymax_body lm K lng lat (PyBool true) = Ok (XYLcd x y lcd))
  /\ (forall e,
        lonlat2dymax_body lm K lng lat (PyBool true) = Raise e
        <-> lonlat2dymax_body lm K lng lat (PyBool false) = Raise e).
Proof.
  unfold lonlat2dymax_body.
  destruct (lonlat2spherical lng lat) as [theta phi].
  destruct (spherical2cartesian lm theta phi) as [XYZ | e0]; simpl.
  2: { split; [reflexivity | ]. split; [intros x y lcd H; discriminate H | ].
       split; [intros x y H; discriminate H | ]. intros e; tauto. }
  destruct (fullerTriangle K XYZ) as [[tri lcd0] | e0] eqn:Hft; simpl.
  2: { split; [reflexivity | ]. split; [intros x y lcd H; discriminate H | ].
       split; [intros x y H; discriminate H | ]. intros e; tauto. }
  destruct (dymax_point lm K tri lcd0 XYZ) as [[x0 y0] | e0]; simpl.
  2: { split; [reflexivity | ]. split; [intros x y lcd H; discriminate H | ].
       split; [intros x y H; discriminate H | ]. intros e; tauto. }
  split; [destruct (truthy getlcd); reflexivity | ].
  split; [intros x y lcd H; injection H as <- <- <-;
          split; [reflexivity | exact (proj1 (fullerTriangle_range _ _ _ _ Hft))] | ].
  split; [intros x y H; injection H as <- <-; eauto | ].
  intros e. split; discriminate.
Qed.

(** ** [vert2dymax] *)

(** X16.  [vert2dymax] only looks [vert] up when it is one of the three
    entries of [vertset].  For a [vert] that is none of them, the three
    vertices of [vertset] each get the weight .0001 and the result does not
    depend on [vert], not even on its being a valid vertex index. *)
Theorem vert2dymax_vert_not_in_vertset lm K vert a b c :
  a <> vert -> b <> vert -> c <> vert ->
  vert2dymax lm K vert (a, b, c) =
    (pa <- np_getitem (vertices K) a ;;
     pb <- np_getitem (vertices K) b ;;
     pc <- np_getitem (vertices K) c ;;
     triangle_point lm K
       (vadd (vadd (vadd (0, 0, 0) (vscale pa 0.0001)) (vscale pb 0.0001))
             (vscale pc 0.0001))).
Proof.
  intros Ha Hb Hc. unfold vert2dymax. simpl.
  destruct (Z.eqb_spec a vert); [contradiction | ].
  destruct (np_getitem (vertices K) a) as [pa | e]; simpl; [ | reflexivity].
  destruct (Z.eqb_spec b vert); [contradiction | ].
  destruct (np_getitem (vertices K) b) as [pb | e]; simpl; [ | reflexivity].
  destruct (Z.eqb_spec c vert); [contradiction | ].
  destruct (np_getitem (vertices K) c) as [pc | e]; simpl; reflexivity.
Qed.

(** X16, on the sample icosahedron, with a vertex index that does not
    exist. *)
Lemma vert2dymax_vert_not_in_vertset_witness :
  vert2dymax Sample.libm Sample.constants 999 (0, 5, 1)%Z
  = vert2dymax Sample.libm Sample.constants 7 (0, 5, 1)%Z.
Proof.
  rewrite (vert2dymax_vert_not_in_vertset Sample.libm Sample.constants 999 0 5 1)
    by discriminate.
  symmetry. apply vert2dymax_vert_not_in_vertset; discriminate.
Defined.

(** ** [lonlat2spherical], further *)

(** X17.  The shift by 360 is applied once, to negative longitudes only:
    a negative longitude whose shifted value is not negative gives the very
    angles of that shifted longitude, so -77.0367 and 282.9633 are the same
    meridian for the pipeline. *)
Theorem lonlat2spherical_shift lng lat :
  (lng <? 0) = true -> (0 <=? lng + 360) = true ->
  lonlat2spherical lng lat = lonlat2spherical (lng + 360) lat.
Proof.
  intros Hneg Hpos. unfold lonlat2spherical.
  rewrite Hneg, (zero_leb_not_ltb _ Hpos). reflexivity.
Qed.

(** X17, at the longitude of the docstring. *)
Lemma lonlat2spherical_shift_witness :
  lonlat2spherical (-77.0367) 38.8951
  = lonlat2spherical (-77.0367 + 360) 38.8951.
Proof.
  apply lonlat2spherical_shift; vm_compute; reflexivity.
Defined.
